(** * Ether-Soul: the Netlify chat function [netlify/functions/chat.js]

    A shallow embedding of the serverless handler that relays chat
    payloads to the Gemini HTTP API, together with the part of the
    JavaScript platform the handler calls ([JSON.parse],
    [JSON.stringify], string conversion in template literals, property
    reads, [fetch]), and the properties the specification states about
    it. *)

From Stdlib Require Import Ascii String.
From Stdlib Require Import List NArith ZArith Bool Lia.
Import ListNotations.

Local Open Scope N_scope.

(** ** JavaScript strings

    A JavaScript string is a sequence of UTF-16 code units. *)

Definition jsstring := list N.

(** The code unit of an ASCII character, and the string of an ASCII
    literal. *)
Definition ch (a : ascii) : N := N_of_ascii a.

Definition str (s : string) : jsstring := map N_of_ascii (list_ascii_of_string s).

Fixpoint jsstring_eqb (a b : jsstring) : bool :=
  match a, b with
  | [], [] => true
  | x :: a', y :: b' => (x =? y) && jsstring_eqb a' b'
  | _, _ => false
  end.

(** [s.includes(t)]: [t] occurs in [s] as a contiguous run. *)
Definition includes (s t : jsstring) : Prop := exists pre post, s = pre ++ t ++ post.

(** ** JavaScript numbers

    A number is an IEEE 754 binary64: a signed zero, a signed infinity,
    or [m * 2^e] with [0 < m < 2^53] and [-1074 <= e <= 971], where
    [2^52 <= m] unless [e = -1074].  No [NaN] comes out of JSON text. *)

Inductive number :=
| Zero (neg : bool)
| Finite (neg : bool) (m : N) (e : Z)
| Infinite (neg : bool).

(** [p / q] to the nearest integer, ties to even. *)
Definition round_half_even (p q : N) : N :=
  let m := p / q in
  match 2 * (p mod q) ?= q with
  | Lt => m
  | Gt => m + 1
  | Eq => if N.even m then m else m + 1
  end.

(** [p / q / 2^e] as a fraction. *)
Definition scale2 (p q : N) (e : Z) : N * N :=
  if (0 <=? e)%Z then (p, q * 2 ^ Z.to_N e) else (p * 2 ^ Z.to_N (- e), q).

(** The binary64 nearest to [p / q], for [0 < p] and [0 < q]. *)
Definition binary64_of_ratio (sign : bool) (p q : N) : number :=
  let e0 := (Z.of_N (N.log2 p) - Z.of_N (N.log2 q) - 52)%Z in
  let '(p0, q0) := scale2 p q e0 in
  let e1 := if p0 / q0 <? 2 ^ 52 then (e0 - 1)%Z else e0 in
  let e2 := Z.max e1 (-1074) in
  let '(p2, q2) := scale2 p q e2 in
  let m := round_half_even p2 q2 in
  let '(m3, e3) := if m =? 2 ^ 53 then (2 ^ 52, (e2 + 1)%Z) else (m, e2) in
  if m3 =? 0 then Zero sign
  else if (971 <? e3)%Z then Infinite sign
  else Finite sign m3 e3.

Definition digits_value (ds : list N) : N := fold_left (fun a d => 10 * a + d) ds 0.

Fixpoint strip_leading (ds : list N) : list N :=
  match ds with
  | 0 :: ds' => strip_leading ds'
  | _ => ds
  end.

(** The binary64 nearest to [d1...dk * 10^x].  A numeral beyond
    [10^310] or below [10^-330] is decided without computing the
    power. *)
Definition binary64_of_decimal (sign : bool) (ds : list N) (x : Z) : number :=
  match strip_leading ds with
  | [] => Zero sign
  | ds1 =>
      let magnitude := (Z.of_nat (length ds1) + x)%Z in
      if (310 <? magnitude)%Z then Infinite sign
      else if (magnitude <? -330)%Z then Zero sign
      else if (0 <=? x)%Z then binary64_of_ratio sign (digits_value ds1 * 10 ^ Z.to_N x) 1
      else binary64_of_ratio sign (digits_value ds1) (10 ^ Z.to_N (- x))
  end.

Fixpoint uint_digits (u : Decimal.uint) : list N :=
  match u with
  | Decimal.Nil => []
  | Decimal.D0 u' => 0 :: uint_digits u'
  | Decimal.D1 u' => 1 :: uint_digits u'
  | Decimal.D2 u' => 2 :: uint_digits u'
  | Decimal.D3 u' => 3 :: uint_digits u'
  | Decimal.D4 u' => 4 :: uint_digits u'
  | Decimal.D5 u' => 5 :: uint_digits u'
  | Decimal.D6 u' => 6 :: uint_digits u'
  | Decimal.D7 u' => 7 :: uint_digits u'
  | Decimal.D8 u' => 8 :: uint_digits u'
  | Decimal.D9 u' => 9 :: uint_digits u'
  end.

Definition N_digits (n : N) : list N := uint_digits (N.to_uint n).

(** The number of an integer literal of the source, such as [204], and
    of a decimal literal: [decimal 95 (-2)] is [0.95]. *)
Definition decimal (m : N) (x : Z) : number := binary64_of_decimal false (N_digits m) x.

Definition number_of_N (n : N) : number := decimal n 0.

Definition is_zero (n : number) : bool :=
  match n with
  | Zero _ => true
  | _ => false
  end.

Definition number_eqb (a b : number) : bool :=
  match a, b with
  | Zero s, Zero s' => Bool.eqb s s'
  | Infinite s, Infinite s' => Bool.eqb s s'
  | Finite s m e, Finite s' m' e' => Bool.eqb s s' && (m =? m') && (e =? e')%Z
  | _, _ => false
  end.

(** [p / q * 10^x] as a fraction. *)
Definition scale10 (p q : N) (x : Z) : N * N :=
  if (0 <=? x)%Z then (p * 10 ^ Z.to_N x, q) else (p, q * 10 ^ Z.to_N (- x)).

(** The [n] with [10^(n-1) <= p / q < 10^n]. *)
Definition decimal_magnitude (p q : N) : Z :=
  let n0 := (Z.of_nat (length (N_digits p)) - Z.of_nat (length (N_digits q)) + 1)%Z in
  let '(p1, q1) := scale10 p q (1 - n0) in
  if q1 <=? p1 then n0 else (n0 - 1)%Z.

(** The [k]-digit candidates for [m * 2^e] whose decimal point is at
    [n]: the integers around [m * 2^e * 10^(k-n)], nearest first, that
    read back as [m * 2^e]. *)
Definition candidates (m : N) (e : Z) (n : Z) (k : Z) : list N :=
  let '(p, q) := scale2 m 1 (- e) in
  let '(tp, tq) := scale10 p q (k - n) in
  let lo := tp / tq in
  let hi := lo + 1 in
  let ordered :=
    match 2 * (tp mod tq) ?= tq with
    | Lt => [lo; hi]
    | Gt => [hi; lo]
    | Eq => if N.even lo then [lo; hi] else [hi; lo]
    end in
  filter (fun s => number_eqb (binary64_of_decimal false (N_digits s) (n - k))
                              (Finite false m e))
         ordered.

Fixpoint shortest (m : N) (e : Z) (n : Z) (ks : list Z) : list N * Z :=
  match ks with
  | [] => ([], n)
  | k :: ks' =>
      match candidates m e n k with
      | s :: _ =>
          let ds := N_digits s in
          (rev (strip_leading (rev ds)), (n + Z.of_nat (length ds) - k)%Z)
      | [] => shortest m e n ks'
      end
  end.

(** The digits [d1...dk] and the point [n] of [Number::toString]: the
    shortest numeral [0.d1...dk * 10^n] that reads back as the number. *)
Definition shortest_digits (m : N) (e : Z) : list N * Z :=
  let '(p, q) := scale2 m 1 (- e) in
  shortest m e (decimal_magnitude p q) (map Z.of_nat (seq 1 17)).

Definition digit_char (d : N) : N := 48 + d.

Definition zeros (n : Z) : jsstring := repeat (ch "0") (Z.to_nat n).

Definition format_digits (ds : list N) (n : Z) : jsstring :=
  let k := Z.of_nat (length ds) in
  let cs := map digit_char ds in
  if ((k <=? n) && (n <=? 21))%Z then cs ++ zeros (n - k)
  else if ((0 <? n) && (n <=? 21))%Z then
    firstn (Z.to_nat n) cs ++ ch "." :: skipn (Z.to_nat n) cs
  else if ((-6 <? n) && (n <=? 0))%Z then
    ch "0" :: ch "." :: zeros (- n) ++ cs
  else
    let x := (n - 1)%Z in
    let mantissa :=
      match cs with
      | [] => []
      | [c] => [c]
      | c :: rest => c :: ch "." :: rest
      end in
    mantissa ++ ch "e" :: (if (x <? 0)%Z then ch "-" else ch "+")
             :: map digit_char (N_digits (Z.abs_N x)).

Definition Number_toString (n : number) : jsstring :=
  match n with
  | Zero _ => str "0"
  | Infinite sign => if sign then str "-Infinity" else str "Infinity"
  | Finite sign m e =>
      let '(ds, p) := shortest_digits m e in
      (if sign then [ch "-"] else []) ++ format_digits ds p
  end.

(** ** JSON values

    What [JSON.parse] returns: the members of an object are kept in the
    order in which the engine enumerates own properties. *)

Unset Elimination Schemes.
Inductive json :=
| JNull
| JBool (b : bool)
| JNumber (n : number)
| JString (s : jsstring)
| JArray (elems : list json)
| JObject (members : list (jsstring * json)).
Set Elimination Schemes.

(** ** Ordinary objects

    Own string-keyed properties are enumerated with the array indices
    first, in ascending numeric order, then the other keys in the order
    of their creation.  Writing an existing key keeps its place. *)

Definition obj (V : Type) := list (jsstring * V).

Definition is_digit (c : N) : bool := (48 <=? c) && (c <=? 57).

(** An array index is the canonical numeral of an integer below
    [2^32 - 1]. *)
Definition array_index (k : jsstring) : option N :=
  match k with
  | [] => None
  | c :: rest =>
      if forallb is_digit k && (negb (c =? 48) || match rest with [] => true | _ => false end)
      then let i := digits_value (map (fun d => d - 48) k) in
           if i <? 4294967295 then Some i else None
      else None
  end.

Fixpoint obj_get {V} (k : jsstring) (o : obj V) : option V :=
  match o with
  | [] => None
  | (k', v) :: o' => if jsstring_eqb k k' then Some v else obj_get k o'
  end.

Definition obj_has {V} (k : jsstring) (o : obj V) : bool :=
  match obj_get k o with Some _ => true | None => false end.

Fixpoint obj_replace {V} (k : jsstring) (v : V) (o : obj V) : obj V :=
  match o with
  | [] => []
  | (k', v') :: o' =>
      if jsstring_eqb k k' then (k', v) :: o' else (k', v') :: obj_replace k v o'
  end.

Fixpoint obj_insert_index {V} (i : N) (k : jsstring) (v : V) (o : obj V) : obj V :=
  match o with
  | [] => [(k, v)]
  | (k', v') :: o' =>
      match array_index k' with
      | Some j => if i <? j then (k, v) :: o else (k', v') :: obj_insert_index i k v o'
      | None => (k, v) :: o
      end
  end.

(** [o[k] = v], also [CreateDataProperty]. *)
Definition obj_set {V} (k : jsstring) (v : V) (o : obj V) : obj V :=
  if obj_has k o then obj_replace k v o
  else match array_index k with
       | Some i => obj_insert_index i k v o
       | None => o ++ [(k, v)]
       end.

(** An object literal [{k1: v1, ..., kn: vn}] and a spread [{...base, ...extra}]:
    the properties are defined one after the other. *)
Definition obj_literal {V} (props : list (jsstring * V)) : obj V :=
  fold_left (fun o kv => obj_set (fst kv) (snd kv) o) props [].

Definition obj_spread {V} (base extra : obj V) : obj V :=
  fold_left (fun o kv => obj_set (fst kv) (snd kv) o) extra base.

(** ** JSON.parse

    A recursive-descent reading of the JSON grammar (ECMA-404), as
    [JSON.parse] applies it to a string. *)

(** The double quote and the backslash. *)
Definition dquote : N := 34.
Definition backslash : N := 92.

Definition is_ws (c : N) : bool :=
  (c =? 32) || (c =? 9) || (c =? 10) || (c =? 13).

Fixpoint skip_ws (s : list N) : list N :=
  match s with
  | c :: r => if is_ws c then skip_ws r else s
  | [] => []
  end.

Definition hex_value (c : N) : option N :=
  if is_digit c then Some (c - 48)
  else if (97 <=? c) && (c <=? 102) then Some (c - 87)
  else if (65 <=? c) && (c <=? 70) then Some (c - 55)
  else None.

Definition hex4_value (h1 h2 h3 h4 : N) : option N :=
  match hex_value h1, hex_value h2, hex_value h3, hex_value h4 with
  | Some a, Some b, Some c, Some d => Some (((a * 16 + b) * 16 + c) * 16 + d)
  | _, _, _, _ => None
  end.

Definition cons_char (c : N) (r : option (jsstring * list N)) : option (jsstring * list N) :=
  match r with
  | Some (s, rest) => Some (c :: s, rest)
  | None => None
  end.

(** The characters of a string literal after its opening quote, up to
    and including the closing quote. *)
Fixpoint parse_string_chars (s : list N) : option (jsstring * list N) :=
  match s with
  | [] => None
  | c :: r =>
      if c =? dquote then Some ([], r)
      else if c =? backslash then
        match r with
        | [] => None
        | e :: r' =>
            if e =? dquote then cons_char 34 (parse_string_chars r')
            else if e =? backslash then cons_char 92 (parse_string_chars r')
            else if e =? ch "/" then cons_char 47 (parse_string_chars r')
            else if e =? ch "b" then cons_char 8 (parse_string_chars r')
            else if e =? ch "f" then cons_char 12 (parse_string_chars r')
            else if e =? ch "n" then cons_char 10 (parse_string_chars r')
            else if e =? ch "r" then cons_char 13 (parse_string_chars r')
            else if e =? ch "t" then cons_char 9 (parse_string_chars r')
            else if e =? ch "u" then
              match r' with
              | h1 :: h2 :: h3 :: h4 :: r'' =>
                  match hex4_value h1 h2 h3 h4 with
                  | Some u => cons_char u (parse_string_chars r'')
                  | None => None
                  end
              | _ => None
              end
            else None
        end
      else if c <? 32 then None
      else cons_char c (parse_string_chars r)
  end.

Fixpoint take_digits (s : list N) : list N * list N :=
  match s with
  | c :: r =>
      if is_digit c then let '(ds, rest) := take_digits r in ((c - 48) :: ds, rest)
      else ([], s)
  | [] => ([], [])
  end.

Definition is_nil {A} (l : list A) : bool :=
  match l with [] => true | _ => false end.

(** A JSON number: an optional minus sign, an integer part without
    superfluous leading zero, an optional fraction and an optional
    exponent. *)
Definition parse_number (s : list N) : option (number * list N) :=
  let '(sign, s1) :=
    match s with
    | c :: r => if c =? ch "-" then (true, r) else (false, s)
    | [] => (false, s)
    end in
  let '(ip, s2) := take_digits s1 in
  match ip with
  | [] => None
  | d :: ip' =>
      if (d =? 0) && negb (is_nil ip') then None
      else
        let frac :=
          match s2 with
          | c :: r =>
              if c =? ch "." then
                let '(fp, s3) := take_digits r in
                if is_nil fp then None else Some (fp, s3)
              else Some ([], s2)
          | [] => Some ([], s2)
          end in
        match frac with
        | None => None
        | Some (fp, s3) =>
            let expo :=
              match s3 with
              | c :: r =>
                  if (c =? ch "e") || (c =? ch "E") then
                    let '(esign, r1) :=
                      match r with
                      | c' :: r' =>
                          if c' =? ch "-" then (true, r')
                          else if c' =? ch "+" then (false, r')
                          else (false, r)
                      | [] => (false, r)
                      end in
                    let '(ep, s4) := take_digits r1 in
                    if is_nil ep then None
                    else let e := Z.of_N (digits_value ep) in
                         Some (if esign then (- e)%Z else e, s4)
                  else Some (0%Z, s3)
              | [] => Some (0%Z, s3)
              end in
            match expo with
            | None => None
            | Some (e, s4) =>
                Some (binary64_of_decimal sign (ip ++ fp) (e - Z.of_nat (length fp)), s4)
            end
        end
  end.

Fixpoint strip_prefix (p s : list N) : option (list N) :=
  match p, s with
  | [], _ => Some s
  | a :: p', b :: s' => if a =? b then strip_prefix p' s' else None
  | _ :: _, [] => None
  end.

(** The outcome of a parser run with a bound on its depth: a value and
    the unread input, a syntax error, or the bound reached. *)
Inductive presult :=
| POk (v : json) (rest : list N)
| PErr
| PFuel.

Definition parse_literal (lit : string) (v : json) (s : list N) : presult :=
  match strip_prefix (str lit) s with
  | Some rest => POk v rest
  | None => PErr
  end.

Fixpoint parse_value (fuel : nat) (s : list N) : presult :=
  match fuel with
  | O => PFuel
  | S f =>
      match skip_ws s with
      | [] => PErr
      | c :: r =>
          if c =? ch "{" then
            match skip_ws r with
            | c' :: r' => if c' =? ch "}" then POk (JObject []) r' else parse_members f [] r
            | [] => PErr
            end
          else if c =? ch "[" then
            match skip_ws r with
            | c' :: r' => if c' =? ch "]" then POk (JArray []) r' else parse_elements f [] r
            | [] => PErr
            end
          else if c =? dquote then
            match parse_string_chars r with
            | Some (x, rest) => POk (JString x) rest
            | None => PErr
            end
          else if c =? ch "t" then parse_literal "true" (JBool true) (c :: r)
          else if c =? ch "f" then parse_literal "false" (JBool false) (c :: r)
          else if c =? ch "n" then parse_literal "null" JNull (c :: r)
          else if (c =? ch "-") || is_digit c then
            match parse_number (c :: r) with
            | Some (n, rest) => POk (JNumber n) rest
            | None => PErr
            end
          else PErr
      end
  end

with parse_elements (fuel : nat) (acc : list json) (s : list N) : presult :=
  match fuel with
  | O => PFuel
  | S f =>
      match parse_value f s with
      | POk v rest =>
          match skip_ws rest with
          | c :: r =>
              if c =? ch "," then parse_elements f (v :: acc) r
              else if c =? ch "]" then POk (JArray (rev (v :: acc))) r
              else PErr
          | [] => PErr
          end
      | PErr => PErr
      | PFuel => PFuel
      end
  end

with parse_members (fuel : nat) (acc : obj json) (s : list N) : presult :=
  match fuel with
  | O => PFuel
  | S f =>
      match skip_ws s with
      | q :: r0 =>
          if q =? dquote then
            match parse_string_chars r0 with
            | Some (k, r1) =>
                match skip_ws r1 with
                | c1 :: r2 =>
                    if c1 =? ch ":" then
                      match parse_value f r2 with
                      | POk v rest =>
                          match skip_ws rest with
                          | c :: r =>
                              if c =? ch "," then parse_members f (obj_set k v acc) r
                              else if c =? ch "}" then POk (JObject (obj_set k v acc)) r
                              else PErr
                          | [] => PErr
                          end
                      | PErr => PErr
                      | PFuel => PFuel
                      end
                    else PErr
                | [] => PErr
                end
            | None => PErr
            end
          else PErr
      | [] => PErr
      end
  end.

(** Every level of nesting reads at least one character, so twice the
    length of the text bounds the depth of the run ([parse_fuel_enough]
    below). *)
Definition parse_fuel (s : list N) : nat := 2 * length s + 2.

(** [JSON.parse(s)]: the value, or [None] for a [SyntaxError]. *)
Definition JSON_parse (s : jsstring) : option json :=
  match parse_value (parse_fuel s) s with
  | POk v rest => if is_nil (skip_ws rest) then Some v else None
  | PErr => None
  | PFuel => None
  end.

(** Text that holds double quotes is written with ['] standing for the
    double quote. *)
Definition qstr (s : string) : jsstring :=
  map (fun c => if c =? ch "'" then dquote else c) (str s).

(** ** JSON.stringify *)

Definition hex_digit (d : N) : N := if d <? 10 then 48 + d else 87 + d.

(** [UnicodeEscape]: a backslash, [u] and four lowercase hexadecimal
    digits. *)
Definition unicode_escape (c : N) : jsstring :=
  [backslash; ch "u"; hex_digit (c / 4096); hex_digit ((c / 256) mod 16);
   hex_digit ((c / 16) mod 16); hex_digit (c mod 16)].

Definition is_high_surrogate (c : N) : bool := (55296 <=? c) && (c <=? 56319).
Definition is_low_surrogate (c : N) : bool := (56320 <=? c) && (c <=? 57343).

(** The body of [QuoteJSONString]: the seven short escapes, [\uXXXX] for
    the other control characters and for surrogates that are not part of
    a pair, every other code unit as it is. *)
Fixpoint quote_chars (s : jsstring) : jsstring :=
  match s with
  | [] => []
  | c :: r =>
      if c =? 8 then backslash :: ch "b" :: quote_chars r
      else if c =? 9 then backslash :: ch "t" :: quote_chars r
      else if c =? 10 then backslash :: ch "n" :: quote_chars r
      else if c =? 12 then backslash :: ch "f" :: quote_chars r
      else if c =? 13 then backslash :: ch "r" :: quote_chars r
      else if c =? dquote then backslash :: dquote :: quote_chars r
      else if c =? backslash then backslash :: backslash :: quote_chars r
      else if c <? 32 then unicode_escape c ++ quote_chars r
      else if is_high_surrogate c then
        match r with
        | d :: r' =>
            if is_low_surrogate d then c :: d :: quote_chars r'
            else unicode_escape c ++ quote_chars r
        | [] => unicode_escape c
        end
      else if is_low_surrogate c then unicode_escape c ++ quote_chars r
      else c :: quote_chars r
  end.

Definition QuoteJSONString (s : jsstring) : jsstring :=
  dquote :: quote_chars s ++ [dquote].

Fixpoint join (sep : jsstring) (parts : list jsstring) : jsstring :=
  match parts with
  | [] => []
  | [p] => p
  | p :: rest => p ++ sep ++ join sep rest
  end.

(** [JSON.stringify(v)] without replacer or indentation, on a value that
    holds no function, no [undefined] and no cycle. *)
Fixpoint JSON_stringify (v : json) : jsstring :=
  match v with
  | JNull => str "null"
  | JBool true => str "true"
  | JBool false => str "false"
  | JNumber (Infinite _) => str "null"
  | JNumber n => Number_toString n
  | JString s => QuoteJSONString s
  | JArray elems => ch "[" :: join [ch ","] (map JSON_stringify elems) ++ [ch "]"]
  | JObject members =>
      ch "{" :: join [ch ","]
                  (map (fun kv => QuoteJSONString (fst kv) ++ ch ":" :: JSON_stringify (snd kv))
                       members)
             ++ [ch "}"]
  end.

(** ** Conversions and property reads *)

(** [ToBoolean] of the result of a property read ([None] is
    [undefined]). *)
Definition truthy (v : option json) : bool :=
  match v with
  | None => false
  | Some JNull => false
  | Some (JBool b) => b
  | Some (JNumber n) => negb (is_zero n)
  | Some (JString s) => negb (is_nil s)
  | Some (JArray _) => true
  | Some (JObject _) => true
  end.

(** [a || b] on the result of a property read. *)
Definition or_else (v : option json) (default : json) : json :=
  match v with
  | Some x => if truthy v then x else default
  | None => default
  end.

(** [ToString], as a template literal applies it: [None] is the
    [TypeError] of an object that cannot be converted to a primitive.  An
    array joins its elements with commas, [null] counting as empty.  An
    object made by [JSON.parse] converts through [Object.prototype.toString]
    unless it has a [toString] member of its own, which is never callable
    and leaves [Object.prototype.valueOf], which returns no primitive. *)
Fixpoint ToString (v : json) : option jsstring :=
  match v with
  | JNull => Some (str "null")
  | JBool true => Some (str "true")
  | JBool false => Some (str "false")
  | JNumber n => Some (Number_toString n)
  | JString s => Some s
  | JArray elems =>
      option_map (join [ch ","])
        ((fix parts (l : list json) : option (list jsstring) :=
            match l with
            | [] => Some []
            | e :: l' =>
                match (match e with JNull => Some [] | _ => ToString e end), parts l' with
                | Some p, Some ps => Some (p :: ps)
                | _, _ => None
                end
            end) elems)
  | JObject members =>
      if obj_has (str "toString") members then None else Some (str "[object Object]")
  end.

(** ** Exceptions, effects and the world around one invocation *)

(** A thrown [Error]; [message] is [None] when the thrown value has
    none. *)
Record exn := mk_exn { name : jsstring; message : option jsstring }.

Inductive result (A : Type) :=
| Ok (a : A)
| Throw (e : exn).
Arguments Ok {A} a.
Arguments Throw {A} e.

Definition TypeError (msg : jsstring) : exn := mk_exn (str "TypeError") (Some msg).

(** [v[k]] for a name [k] that the built-in prototypes do not define (the
    handler reads [contents], [model] and [generationConfig]); [None] is
    [undefined].  Reading a property of [null] throws. *)
Definition get_prop (v : json) (k : jsstring) : result (option json) :=
  match v with
  | JNull =>
      Throw (TypeError (str "Cannot read properties of null (reading '" ++ k ++ str "')"))
  | JObject members => Ok (obj_get k members)
  | JArray elems =>
      match array_index k with
      | Some i => Ok (nth_error elems (N.to_nat i))
      | None =>
          if jsstring_eqb k (str "length")
          then Ok (Some (JNumber (number_of_N (N.of_nat (length elems)))))
          else Ok None
      end
  | JString s =>
      match array_index k with
      | Some i => Ok (option_map (fun c => JString [c]) (nth_error s (N.to_nat i)))
      | None =>
          if jsstring_eqb k (str "length")
          then Ok (Some (JNumber (number_of_N (N.of_nat (length s)))))
          else Ok None
      end
  | JBool _ | JNumber _ => Ok None
  end.

Definition Array_isArray (v : option json) : bool :=
  match v with
  | Some (JArray _) => true
  | _ => false
  end.

(** The second argument of [fetch]. *)
Record RequestInit := mk_init {
  method : jsstring;
  init_headers : obj jsstring;
  init_body : jsstring
}.

(** A [node-fetch] response: the status line, what reading the body
    gives (its text, or the error of a broken stream), and the error
    with which [json()] rejects a body that is not JSON. *)
Record FetchResponse := mk_fetch_response {
  status : N;
  body_read : jsstring + exn;
  json_failure : exn
}.

Definition ok (r : FetchResponse) : bool := (200 <=? status r) && (status r <? 300).

Inductive fetch_outcome :=
| Resolves (r : FetchResponse)
| Rejects (e : exn).

Inductive log_arg :=
| LString (s : jsstring)
| LError (e : exn).

Inductive effect :=
| ConsoleLog (args : list log_arg)
| ConsoleError (args : list log_arg)
| FetchCall (url : jsstring) (init : RequestInit).

(** What one invocation can observe outside itself: the environment
    variable, the clock (as [new Date().toISOString()] renders it) and
    the answer of the network to a request. *)
Record World := mk_world {
  GEMINI_API_KEY : option jsstring;
  now_iso : jsstring;
  upstream : jsstring -> RequestInit -> fetch_outcome
}.

(** A computation reads the world, returns or throws, and leaves the
    trace of its effects.  For the [async] handler, [Throw] is the
    rejection of the promise it returns. *)
Definition M (A : Type) := World -> result A * list effect.

Definition ret {A} (a : A) : M A := fun _ => (Ok a, []).

Definition throw {A} (e : exn) : M A := fun _ => (Throw e, []).

Definition bind {A B} (m : M A) (k : A -> M B) : M B :=
  fun w =>
    match m w with
    | (Ok a, t1) => let '(r, t2) := k a w in (r, t1 ++ t2)
    | (Throw e, t1) => (Throw e, t1)
    end.

Definition try_catch {A} (m : M A) (h : exn -> M A) : M A :=
  fun w =>
    match m w with
    | (Ok a, t1) => (Ok a, t1)
    | (Throw e, t1) => let '(r, t2) := h e w in (r, t1 ++ t2)
    end.

Definition lift {A} (r : result A) : M A := fun _ => (r, []).

Declare Scope js_scope.
Delimit Scope js_scope with js.
Notation "x <- m ;; k" := (bind m (fun x => k))
  (at level 61, m at next level, right associativity) : js_scope.
Notation "m ;; k" := (bind m (fun _ => k))
  (at level 61, right associativity) : js_scope.
Local Open Scope js_scope.

Definition process_env_GEMINI_API_KEY : M (option jsstring) :=
  fun w => (Ok (GEMINI_API_KEY w), []).

Definition Date_toISOString : M jsstring := fun w => (Ok (now_iso w), []).

Definition console_log (args : list log_arg) : M unit := fun _ => (Ok tt, [ConsoleLog args]).

Definition console_error (args : list log_arg) : M unit := fun _ => (Ok tt, [ConsoleError args]).

Definition fetch (url : jsstring) (init : RequestInit) : M FetchResponse :=
  fun w =>
    (match upstream w url init with
     | Resolves r => Ok r
     | Rejects e => Throw e
     end, [FetchCall url init]).

(** [response.text()] and [response.json()]. *)
Definition text (r : FetchResponse) : M jsstring :=
  match body_read r with
  | inl s => ret s
  | inr e => throw e
  end.

Definition json_ (r : FetchResponse) : M json :=
  match body_read r with
  | inl s =>
      match JSON_parse s with
      | Some v => ret v
      | None => throw (json_failure r)
      end
  | inr e => throw e
  end.

(** A template literal's [${v}]. *)
Definition interpolate (v : json) : M jsstring :=
  match ToString v with
  | Some s => ret s
  | None => throw (TypeError (str "Cannot convert object to primitive value"))
  end.

(** ** The handler *)

(** [event.body] as the platform passes it. *)
Inductive body_value :=
| BodyUndefined
| BodyNull
| BodyString (s : jsstring).

Record Event := mk_event { httpMethod : jsstring; body : body_value }.

(** The object the handler returns; [response_body] is [None] when the
    object has no [body]. *)
Record HttpResponse := mk_response {
  statusCode : N;
  headers : obj jsstring;
  response_body : option jsstring
}.

Definition corsHeaders (extra : obj jsstring) : obj jsstring :=
  obj_spread
    (obj_literal
       [(str "Access-Control-Allow-Origin", str "*");
        (str "Access-Control-Allow-Methods", str "POST,OPTIONS,GET");
        (str "Access-Control-Allow-Headers", str "Content-Type, Authorization");
        (str "Content-Type", str "application/json")])
    extra.

(** [JSON.stringify({ error: msg })]. *)
Definition error_body (msg : jsstring) : jsstring :=
  JSON_stringify (JObject (obj_literal [(str "error", JString msg)])).

(** [event.body || '{}'] *)
Definition body_or_empty_object (b : body_value) : jsstring :=
  match b with
  | BodyString s => if is_nil s then str "{}" else s
  | BodyUndefined | BodyNull => str "{}"
  end.

(** [!process.env.GEMINI_API_KEY] *)
Definition key_missing (k : option jsstring) : bool :=
  match k with
  | Some s => is_nil s
  | None => true
  end.

(** An environment variable inside a template literal. *)
Definition env_text (k : option jsstring) : jsstring :=
  match k with
  | Some s => s
  | None => str "undefined"
  end.

(** An object literal as [JSON.stringify] sees it: a property whose value
    is [undefined] is not serialised. *)
Definition object_literal (props : list (jsstring * option json)) : json :=
  JObject
    (fold_left (fun o kv =>
                  match snd kv with
                  | Some v => obj_set (fst kv) v o
                  | None => o
                  end) props []).

Definition default_model : json := JString (str "gemini-2.5-flash").

Definition default_generationConfig : json :=
  JObject (obj_literal
    [(str "temperature", JNumber (decimal 8 (-1)));
     (str "topK", JNumber (number_of_N 40));
     (str "topP", JNumber (decimal 95 (-2)));
     (str "maxOutputTokens", JNumber (number_of_N 1024))]).

(** [err.message || 'Failed to call Gemini API'] *)
Definition message_or (e : exn) (fallback : jsstring) : jsstring :=
  match message e with
  | Some m => if is_nil m then fallback else m
  | None => fallback
  end.

(** The [const]s of the forwarding path. *)
Definition apiUrl (model_text key_text : jsstring) : jsstring :=
  str "https://generativelanguage.googleapis.com/v1beta/models/"
  ++ model_text ++ str ":generateContent?key=" ++ key_text.

Definition requestBody (contents generationConfig : option json) : json :=
  object_literal
    [(str "contents", contents);
     (str "generationConfig", Some (or_else generationConfig default_generationConfig))].

Definition fetch_init (request_body : json) : RequestInit :=
  mk_init (str "POST")
    (obj_literal [(str "Content-Type", str "application/json")])
    (JSON_stringify request_body).

(** The [try { ... } catch (err) { ... }] that ends the handler. *)
Definition call_gemini (api_url : jsstring) (request_body : json) : M HttpResponse :=
  try_catch
    (console_log [LString (str "Calling Gemini API...")] ;;
     response <- fetch api_url (fetch_init request_body) ;;
     if negb (ok response) then
       errorText <- text response ;;
       console_error [LString (str "Gemini API Error:"); LString errorText] ;;
       ret (mk_response (status response) (corsHeaders [])
              (Some (JSON_stringify
                       (JObject (obj_literal
                          [(str "error",
                            JString (str "Gemini API Error: "
                                     ++ Number_toString (number_of_N (status response))));
                           (str "details", JString errorText)])))))
     else
       data <- json_ response ;;
       (* Return the full Gemini response *)
       ret (mk_response 200 (corsHeaders []) (Some (JSON_stringify data))))
    (fun err =>
       console_error [LString (str "Gemini API request failed:"); LError err] ;;
       ret (mk_response 500 (corsHeaders [])
              (Some (error_body (message_or err (str "Failed to call Gemini API")))))).

(** The handler after [JSON.parse] has returned [payload]: validation of
    [payload.contents], the upstream URL and request body, the call. *)
Definition forward (payload : json) : M HttpResponse :=
  (* Validate payload has contents array *)
  contents <- lift (get_prop payload (str "contents")) ;;
  if negb (truthy contents) || negb (Array_isArray contents) then
    ret (mk_response 400 (corsHeaders [])
           (Some (error_body (qstr "Request must include 'contents' array"))))
  else
    (* Build Gemini API URL *)
    model_prop <- lift (get_prop payload (str "model")) ;;
    let model := or_else model_prop default_model in
    model_text <- interpolate model ;;
    key_text <- process_env_GEMINI_API_KEY ;;
    (* Prepare request body for Gemini *)
    contents <- lift (get_prop payload (str "contents")) ;;
    generationConfig <- lift (get_prop payload (str "generationConfig")) ;;
    call_gemini (apiUrl model_text (env_text key_text))
                (requestBody contents generationConfig).

Definition handler (event : Event) : M HttpResponse :=
  (* Preflight CORS *)
  if jsstring_eqb (httpMethod event) (str "OPTIONS") then
    ret (mk_response 204 (corsHeaders []) None)
  else if jsstring_eqb (httpMethod event) (str "GET") then
    now <- Date_toISOString ;;
    ret (mk_response 200 (corsHeaders [])
           (Some (JSON_stringify
                    (JObject (obj_literal [(str "status", JString (str "ok"));
                                           (str "time", JString now)])))))
  else if negb (jsstring_eqb (httpMethod event) (str "POST")) then
    ret (mk_response 405 (corsHeaders []) (Some (error_body (str "Method Not Allowed"))))
  else
    (* Check for API key *)
    key <- process_env_GEMINI_API_KEY ;;
    if key_missing key then
      ret (mk_response 500 (corsHeaders [])
             (Some (error_body
                      (str "GEMINI_API_KEY not configured in Netlify environment variables"))))
    else
      (* try { payload = JSON.parse(event.body || '{}') } catch (err) { return ... } *)
      match JSON_parse (body_or_empty_object (body event)) with
      | None =>
          ret (mk_response 400 (corsHeaders []) (Some (error_body (str "Invalid JSON body"))))
      | Some payload => forward payload
      end.

(** ** What the specification speaks of *)

(** A POST that passes validation: the secret is configured, the body
    parses as JSON, and [contents] is an array. *)
Definition valid_post (e : Event) (w : World) (payload : json) (elems : list json) : Prop :=
  httpMethod e = str "POST"
  /\ key_missing (GEMINI_API_KEY w) = false
  /\ JSON_parse (body_or_empty_object (body e)) = Some payload
  /\ get_prop payload (str "contents") = Ok (Some (JArray elems)).

(** The invocation calls [fetch(u, i)]. *)
Definition upstream_call (e : Event) (w : World) (u : jsstring) (i : RequestInit) : Prop :=
  In (FetchCall u i) (snd (handler e w)).

Definition is_fetch (x : effect) : bool :=
  match x with
  | FetchCall _ _ => true
  | _ => false
  end.

(** The number of outbound calls of an invocation. *)
Definition fetch_count (e : Event) (w : World) : nat :=
  length (filter is_fetch (snd (handler e w))).

(** The responses and log lines of the handler's branches. *)
Definition missing_key_response : HttpResponse :=
  mk_response 500 (corsHeaders [])
    (Some (error_body (str "GEMINI_API_KEY not configured in Netlify environment variables"))).

Definition invalid_json_response : HttpResponse :=
  mk_response 400 (corsHeaders []) (Some (error_body (str "Invalid JSON body"))).

Definition missing_contents_response : HttpResponse :=
  mk_response 400 (corsHeaders [])
    (Some (error_body (qstr "Request must include 'contents' array"))).

Definition failure_response (err : exn) : HttpResponse :=
  mk_response 500 (corsHeaders [])
    (Some (error_body (message_or err (str "Failed to call Gemini API")))).

Definition error_details (e d : jsstring) : json :=
  JObject [(str "error", JString e); (str "details", JString d)].

Definition upstream_error_response (r : FetchResponse) (errorText : jsstring) : HttpResponse :=
  mk_response (status r) (corsHeaders [])
    (Some (JSON_stringify
             (error_details
                (str "Gemini API Error: " ++ Number_toString (number_of_N (status r)))
                errorText))).

Definition log_calling : effect := ConsoleLog [LString (str "Calling Gemini API...")].

Definition log_failure (err : exn) : effect :=
  ConsoleError [LString (str "Gemini API request failed:"); LError err].

(** A string member [k : v] of serialised JSON, followed by the
    delimiter [c]. *)
Definition string_member (k v : jsstring) (c : N) (rest : list N) : list N :=
  dquote :: quote_chars k ++ dquote :: ch ":" :: dquote :: quote_chars v ++ dquote :: c :: rest.

Definition rest_shorter (r : presult) (s : list N) : Prop :=
  forall v rest, r = POk v rest -> (length rest < length s)%nat.

(** ** Sample invocations *)

Definition sample_post : Event :=
  mk_event (str "POST")
    (BodyString (qstr "{'contents':[{'role':'user','parts':[{'text':'hi'}]}]}")).

Definition sample_contents : list json :=
  [JObject [(str "role", JString (str "user"));
            (str "parts", JArray [JObject [(str "text", JString (str "hi"))]])]].

Definition sample_payload : json := JObject [(str "contents", JArray sample_contents)].

Definition sample_json_failure : exn :=
  mk_exn (str "FetchError") (Some (str "invalid json response body")).

Definition answer (status : N) (body : string) : fetch_outcome :=
  Resolves (mk_fetch_response status (inl (qstr body)) sample_json_failure).

(** A world whose secret is [secret] and whose network always gives the
    same answer. *)
Definition world_of (secret : option jsstring) (outcome : fetch_outcome) : World :=
  mk_world secret (str "2026-01-01T00:00:00.000Z") (fun _ _ => outcome).

Definition sample_world (outcome : fetch_outcome) : World :=
  world_of (Some (str "secret")) outcome.

Definition sample_url : jsstring :=
  str "https://generativelanguage.googleapis.com/v1beta/models/gemini-2.5-flash:generateContent?key=secret".

Definition sample_request : json :=
  JObject [(str "contents", JArray sample_contents);
           (str "generationConfig", default_generationConfig)].

(** A valid POST that supplies [0] as its [generationConfig]. *)
Definition zero_config_post : Event :=
  mk_event (str "POST") (BodyString (qstr "{'contents':[],'generationConfig':0}")).

Definition zero_config_members : obj json :=
  [(str "contents", JArray []); (str "generationConfig", JNumber (number_of_N 0))].

Definition zero_config_request : json :=
  JObject [(str "contents", JArray []); (str "generationConfig", default_generationConfig)].

(** Two valid POSTs that differ in [model] and in a field the handler
    does not read. *)
Definition tagged_post : Event :=
  mk_event (str "POST")
    (BodyString (qstr "{'contents':[],'model':'gemini-pro','safetySettings':[1]}")).

Definition tagged_members : obj json :=
  [(str "contents", JArray []); (str "model", JString (str "gemini-pro"));
   (str "safetySettings", JArray [JNumber (number_of_N 1)])].

Definition plain_post : Event :=
  mk_event (str "POST") (BodyString (qstr "{'contents':[]}")).

Definition plain_members : obj json := [(str "contents", JArray [])].

Definition tagged_url : jsstring :=
  str "https://generativelanguage.googleapis.com/v1beta/models/gemini-pro:generateContent?key=secret".

(** ** The branches of an invocation

    The outcome of the [try] block, by what the network answers, and the
    outcome of the handler, by the branch it takes. *)

Definition health_response (now : jsstring) : HttpResponse :=
  mk_response 200 (corsHeaders [])
    (Some (JSON_stringify
             (JObject (obj_literal [(str "status", JString (str "ok"));
                                    (str "time", JString now)])))).

Definition method_not_allowed_response : HttpResponse :=
  mk_response 405 (corsHeaders []) (Some (error_body (str "Method Not Allowed"))).

Inductive call_branch (w : World) (u : jsstring) (rb : json) :
  result HttpResponse * list effect -> Prop :=
| CallRejects (err : exn) :
    upstream w u (fetch_init rb) = Rejects err ->
    call_branch w u rb
      (Ok (failure_response err),
       [log_calling; FetchCall u (fetch_init rb); log_failure err])
| CallUnreadable (r : FetchResponse) (err : exn) :
    upstream w u (fetch_init rb) = Resolves r ->
    body_read r = inr err ->
    call_branch w u rb
      (Ok (failure_response err),
       [log_calling; FetchCall u (fetch_init rb); log_failure err])
| CallNotOk (r : FetchResponse) (errorText : jsstring) :
    upstream w u (fetch_init rb) = Resolves r ->
    ok r = false ->
    body_read r = inl errorText ->
    call_branch w u rb
      (Ok (upstream_error_response r errorText),
       [log_calling; FetchCall u (fetch_init rb);
        ConsoleError [LString (str "Gemini API Error:"); LString errorText]])
| CallOk (r : FetchResponse) (t : jsstring) (data : json) :
    upstream w u (fetch_init rb) = Resolves r ->
    ok r = true ->
    body_read r = inl t ->
    JSON_parse t = Some data ->
    call_branch w u rb
      (Ok (mk_response 200 (corsHeaders []) (Some (JSON_stringify data))),
       [log_calling; FetchCall u (fetch_init rb)])
| CallNotJson (r : FetchResponse) (t : jsstring) :
    upstream w u (fetch_init rb) = Resolves r ->
    ok r = true ->
    body_read r = inl t ->
    JSON_parse t = None ->
    call_branch w u rb
      (Ok (failure_response (json_failure r)),
       [log_calling; FetchCall u (fetch_init rb); log_failure (json_failure r)]).

Inductive branch (e : Event) (w : World) : result HttpResponse * list effect -> Prop :=
| BranchOptions :
    httpMethod e = str "OPTIONS" ->
    branch e w (Ok (mk_response 204 (corsHeaders []) None), [])
| BranchGet :
    httpMethod e = str "GET" ->
    branch e w (Ok (health_response (now_iso w)), [])
| BranchMethod :
    httpMethod e <> str "OPTIONS" ->
    httpMethod e <> str "GET" ->
    httpMethod e <> str "POST" ->
    branch e w (Ok method_not_allowed_response, [])
| BranchNoKey :
    httpMethod e = str "POST" ->
    key_missing (GEMINI_API_KEY w) = true ->
    branch e w (Ok missing_key_response, [])
| BranchInvalidJson :
    httpMethod e = str "POST" ->
    key_missing (GEMINI_API_KEY w) = false ->
    JSON_parse (body_or_empty_object (body e)) = None ->
    branch e w (Ok invalid_json_response, [])
| BranchNull :
    httpMethod e = str "POST" ->
    key_missing (GEMINI_API_KEY w) = false ->
    JSON_parse (body_or_empty_object (body e)) = Some JNull ->
    branch e w
      (Throw (TypeError (str "Cannot read properties of null (reading 'contents')")), [])
| BranchNoContents (payload : json) :
    httpMethod e = str "POST" ->
    key_missing (GEMINI_API_KEY w) = false ->
    JSON_parse (body_or_empty_object (body e)) = Some payload ->
    payload <> JNull ->
    (forall elems, get_prop payload (str "contents") <> Ok (Some (JArray elems))) ->
    branch e w (Ok missing_contents_response, [])
| BranchModel (payload : json) (elems : list json) (model_prop : option json) :
    valid_post e w payload elems ->
    get_prop payload (str "model") = Ok model_prop ->
    ToString (or_else model_prop default_model) = None ->
    branch e w (Throw (TypeError (str "Cannot convert object to primitive value")), [])
| BranchCall (payload : json) (elems : list json) (model_prop supplied : option json)
    (model_text : jsstring) (res : result HttpResponse * list effect) :
    valid_post e w payload elems ->
    get_prop payload (str "model") = Ok model_prop ->
    ToString (or_else model_prop default_model) = Some model_text ->
    get_prop payload (str "generationConfig") = Ok supplied ->
    call_branch w (apiUrl model_text (env_text (GEMINI_API_KEY w)))
      (requestBody (Some (JArray elems)) supplied) res ->
    branch e w res.

Definition is_console_error (x : effect) : bool :=
  match x with
  | ConsoleError _ => true
  | _ => false
  end.

(** Sample worlds and requests for the branches. *)
Definition lowercase_post : Event := mk_event (str "post") (BodyString (qstr "{'contents':[]}")).

Definition blank_post : Event := mk_event (str "POST") (BodyString (str "  ")).

Definition unreadable_answer : fetch_outcome :=
  Resolves (mk_fetch_response 200
              (inr (mk_exn (str "FetchError") (Some (str "Premature close"))))
              sample_json_failure).



Definition string_contents_post : Event :=
  mk_event (str "POST") (BodyString (qstr "{'contents':'hello'}")).

(** * Properties *)

(** ** Strings *)

Lemma jsstring_eqb_spec (a b : jsstring) : jsstring_eqb a b = true <-> a = b.
Proof.
  revert b; induction a as [|x a IH]; intros [|y b]; simpl; split; intro H;
    try discriminate; try reflexivity.
  - apply andb_true_iff in H as [Hx Hr]. apply N.eqb_eq in Hx.
    apply IH in Hr. congruence.
  - injection H as -> ->. rewrite N.eqb_refl. simpl. now apply IH.
Qed.

Lemma jsstring_eqb_refl (a : jsstring) : jsstring_eqb a a = true.
Proof. now apply jsstring_eqb_spec. Qed.

(** ** The parser reads forward and never exhausts its bound *)

Lemma skip_ws_length (s : list N) : (length (skip_ws s) <= length s)%nat.
Proof.
  induction s as [|c r IH]; simpl; [lia|].
  destruct (is_ws c); simpl; lia.
Qed.

Lemma skip_ws_cons_length (s r : list N) (c : N) :
  skip_ws s = c :: r -> (length r < length s)%nat.
Proof.
  intros H. pose proof (skip_ws_length s) as L. rewrite H in L. simpl in L. lia.
Qed.

Lemma cons_char_some c r x rest :
  cons_char c r = Some (x, rest) -> exists x', r = Some (x', rest) /\ x = c :: x'.
Proof.
  destruct r as [[x' rest']|]; simpl; intros H; [|discriminate].
  injection H as <- <-. eauto.
Qed.

Lemma parse_string_chars_length_aux (n : nat) :
  forall s x rest, (length s <= n)%nat ->
    parse_string_chars s = Some (x, rest) -> (length rest < length s)%nat.
Proof.
  induction n as [|n IH]; intros s x rest Hn H.
  - destruct s; [discriminate H | simpl in Hn; lia].
  - destruct s as [|c r]; [discriminate H|].
    cbn [parse_string_chars] in H. cbn [length] in Hn.
    destruct (c =? dquote). { injection H as _ <-. simpl. lia. }
    destruct (c =? backslash).
    + destruct r as [|e r']; [discriminate|]. cbn [length] in Hn.
      repeat match type of H with
             | (if ?b then cons_char _ _ else _) = _ =>
                 destruct b;
                 [apply cons_char_some in H as (x' & H & _);
                  apply IH in H; simpl; lia|]
             end.
      destruct (e =? ch "u"); [|discriminate].
      destruct r' as [|h1 [|h2 [|h3 [|h4 r'']]]]; try discriminate.
      destruct (hex4_value h1 h2 h3 h4); [|discriminate].
      apply cons_char_some in H as (x' & H & _).
      cbn [length] in Hn. apply IH in H; cbn [length]; lia.
    + destruct (c <? 32); [discriminate|].
      apply cons_char_some in H as (x' & H & _).
      apply IH in H; simpl; lia.
Qed.

Lemma parse_string_chars_length s x rest :
  parse_string_chars s = Some (x, rest) -> (length rest < length s)%nat.
Proof. apply (parse_string_chars_length_aux (length s)). lia. Qed.

Lemma take_digits_length s ds rest :
  take_digits s = (ds, rest) -> (length rest + length ds = length s)%nat.
Proof.
  revert ds rest; induction s as [|c r IH]; simpl; intros ds rest H.
  - injection H as <- <-. reflexivity.
  - destruct (is_digit c).
    + destruct (take_digits r) as [ds' rest'] eqn:E.
      injection H as <- <-. specialize (IH _ _ eq_refl). simpl. lia.
    + injection H as <- <-. simpl. lia.
Qed.

Lemma parse_number_length s n rest :
  parse_number s = Some (n, rest) -> (length rest < length s)%nat.
Proof.
  unfold parse_number. intros H.
  destruct (match s with
            | [] => (false, s)
            | c :: r => if c =? ch "-" then (true, r) else (false, s)
            end) as [sign s1] eqn:E1.
  assert (L1 : (length s1 <= length s)%nat).
  { destruct s as [|c r]; [injection E1 as _ <-; lia|].
    destruct (c =? ch "-"); injection E1 as _ <-; simpl; lia. }
  destruct (take_digits s1) as [ip s2] eqn:E2.
  apply take_digits_length in E2.
  destruct ip as [|d ip']; [discriminate|].
  destruct ((d =? 0) && negb (is_nil ip')); [discriminate|].
  simpl in E2.
  match type of H with
  | match ?f with _ => _ end = _ => destruct f as [[fp s3]|] eqn:E3; [|discriminate]
  end.
  assert (L3 : (length s3 <= length s2)%nat).
  { destruct s2 as [|c r]; [injection E3 as _ <-; lia|].
    destruct (c =? ch ".").
    - destruct (take_digits r) as [fp' s3'] eqn:E4. apply take_digits_length in E4.
      destruct (is_nil fp'); [discriminate|]. injection E3 as _ <-. simpl. lia.
    - injection E3 as _ <-. lia. }
  match type of H with
  | match ?f with _ => _ end = _ => destruct f as [[e s4]|] eqn:E5; [|discriminate]
  end.
  injection H as _ <-.
  assert (L4 : (length s4 <= length s3)%nat).
  { destruct s3 as [|c r]; [injection E5 as _ <-; lia|].
    destruct ((c =? ch "e") || (c =? ch "E")).
    - match type of E5 with
      | (let '(_, _) := ?f in _) = _ => destruct f as [esign r1] eqn:E6
      end.
      assert ((length r1 <= length r)%nat).
      { destruct r as [|c' r']; [injection E6 as _ <-; lia|].
        destruct (c' =? ch "-"); [injection E6 as _ <-; simpl; lia|].
        destruct (c' =? ch "+"); injection E6 as _ <-; simpl; lia. }
      destruct (take_digits r1) as [ep s4'] eqn:E7. apply take_digits_length in E7.
      destruct (is_nil ep); [discriminate|]. injection E5 as _ <-. simpl. lia.
    - injection E5 as _ <-. lia. }
  lia.
Qed.

Lemma strip_prefix_length p s rest :
  strip_prefix p s = Some rest -> (length rest + length p = length s)%nat.
Proof.
  revert s; induction p as [|a p IH]; intros [|b s]; simpl; intros H;
    try discriminate; try (injection H as <-; simpl; lia).
  destruct (a =? b); [|discriminate]. apply IH in H. lia.
Qed.

Lemma parse_literal_length lit v s v' rest :
  lit <> EmptyString ->
  parse_literal lit v s = POk v' rest -> (length rest < length s)%nat.
Proof.
  unfold parse_literal. intros Hl H.
  destruct (strip_prefix (str lit) s) eqn:E; [|discriminate].
  injection H as _ <-. apply strip_prefix_length in E.
  destruct lit; [congruence|]. simpl in E. lia.
Qed.

Ltac break_head H :=
  repeat match type of H with
         | (match ?x with _ => _ end) = _ => destruct x eqn:?; try discriminate H
         | (if ?x then _ else _) = _ => destruct x eqn:?; try discriminate H
         end.

Ltac length_facts :=
  repeat match goal with
         | H : skip_ws _ = _ :: _ |- _ => apply skip_ws_cons_length in H
         | H : parse_string_chars _ = Some _ |- _ => apply parse_string_chars_length in H
         | H : parse_number _ = Some _ |- _ => apply parse_number_length in H
         | H : parse_literal _ _ _ = POk _ _ |- _ =>
             apply parse_literal_length in H; [|discriminate]
         | H : POk _ _ = POk _ _ |- _ => injection H as _ <-
         end.

Lemma parse_rest_shorter (fuel : nat) :
  (forall s, rest_shorter (parse_value fuel s) s)
  /\ (forall acc s, rest_shorter (parse_elements fuel acc s) s)
  /\ (forall acc s, rest_shorter (parse_members fuel acc s) s).
Proof.
  induction fuel as [|f (IHv & IHe & IHm)].
  - repeat split; intros; intros v rest H; discriminate H.
  - repeat split; intros; intros v rest H.
    + cbn [parse_value] in H. break_head H;
        try (apply IHm in H); try (apply IHe in H); length_facts;
        cbn [length] in *; lia.
    + cbn [parse_elements] in H. break_head H;
        try (apply IHe in H);
        repeat match goal with
               | H : parse_value f _ = POk _ _ |- _ => apply IHv in H
               end; length_facts; cbn [length] in *; lia.
    + cbn [parse_members] in H. break_head H;
        try (apply IHm in H);
        repeat match goal with
               | H : parse_value f _ = POk _ _ |- _ => apply IHv in H
               end; length_facts; cbn [length] in *; lia.
Qed.

Lemma parse_value_rest_shorter fuel s v rest :
  parse_value fuel s = POk v rest -> (length rest < length s)%nat.
Proof. apply (parse_rest_shorter fuel). Qed.

Ltac break_goal :=
  repeat match goal with
         | |- (match ?x with _ => _ end) <> _ => destruct x eqn:?; try discriminate
         | |- (if ?x then _ else _) <> _ => destruct x eqn:?; try discriminate
         end.

Lemma parse_fuel_suffices (fuel : nat) :
  (forall s, (2 * length s + 1 <= fuel)%nat -> parse_value fuel s <> PFuel)
  /\ (forall acc s, (2 * length s + 2 <= fuel)%nat -> parse_elements fuel acc s <> PFuel)
  /\ (forall acc s, (2 * length s + 2 <= fuel)%nat -> parse_members fuel acc s <> PFuel).
Proof.
  induction fuel as [|f (IHv & IHe & IHm)].
  - repeat split; intros; lia.
  - repeat split; intros.
    + cbn [parse_value]. break_goal; unfold parse_literal; break_goal;
        first [apply IHm | apply IHe]; length_facts; cbn [length] in *; lia.
    + cbn [parse_elements]. break_goal.
      * apply IHe.
        repeat match goal with
               | H : parse_value f _ = POk _ _ |- _ => apply parse_value_rest_shorter in H
               end; length_facts; cbn [length] in *; lia.
      * match goal with
        | H : parse_value f _ = PFuel |- _ => exfalso; revert H; apply IHv; lia
        end.
    + cbn [parse_members]. break_goal.
      * apply IHm.
        repeat match goal with
               | H : parse_value f _ = POk _ _ |- _ => apply parse_value_rest_shorter in H
               end; length_facts; cbn [length] in *; lia.
      * match goal with
        | H : parse_value f _ = PFuel |- _ => exfalso; revert H; apply IHv
        end. length_facts; cbn [length] in *; lia.
Qed.

(** The bound of [JSON_parse] is never reached: [None] is a syntax
    error. *)
Lemma parse_fuel_enough (s : jsstring) : parse_value (parse_fuel s) s <> PFuel.
Proof. apply (parse_fuel_suffices (parse_fuel s)). unfold parse_fuel. lia. Qed.

Lemma JSON_parse_none (s : jsstring) :
  JSON_parse s = None ->
  parse_value (parse_fuel s) s = PErr
  \/ exists v rest, parse_value (parse_fuel s) s = POk v rest /\ skip_ws rest <> [].
Proof.
  unfold JSON_parse. pose proof (parse_fuel_enough s) as Hf.
  destruct (parse_value (parse_fuel s) s) as [v rest| |]; intros H.
  - right. exists v, rest. split; [reflexivity|].
    destruct (skip_ws rest); [discriminate H | discriminate].
  - left. reflexivity.
  - destruct (Hf eq_refl).
Qed.

(** ** Reading back what [JSON.stringify] wrote *)

Lemma hex_value_digit (d : N) : d < 16 -> hex_value (hex_digit d) = Some d.
Proof.
  intros H. unfold hex_value, hex_digit, is_digit.
  destruct (d <? 10) eqn:E.
  - apply N.ltb_lt in E.
    replace ((48 <=? 48 + d) && (48 + d <=? 57)) with true.
    + f_equal. lia.
    + symmetry. apply andb_true_iff. split; apply N.leb_le; lia.
  - apply N.ltb_ge in E.
    replace ((48 <=? 87 + d) && (87 + d <=? 57)) with false.
    + replace ((97 <=? 87 + d) && (87 + d <=? 102)) with true.
      * f_equal. lia.
      * symmetry. apply andb_true_iff. split; apply N.leb_le; lia.
    + symmetry. apply andb_false_iff. right. apply N.leb_gt. lia.
Qed.

Lemma parse_unicode_escape (c : N) (rest : list N) :
  c < 65536 ->
  parse_string_chars (unicode_escape c ++ rest) = cons_char c (parse_string_chars rest).
Proof.
  intros H. unfold unicode_escape.
  cbn [app parse_string_chars].
  change (backslash =? dquote) with false.
  change (backslash =? backslash) with true.
  change (ch "u" =? dquote) with false.
  change (ch "u" =? backslash) with false.
  change (ch "u" =? ch "/") with false.
  change (ch "u" =? ch "b") with false.
  change (ch "u" =? ch "f") with false.
  change (ch "u" =? ch "n") with false.
  change (ch "u" =? ch "r") with false.
  change (ch "u" =? ch "t") with false.
  change (ch "u" =? ch "u") with true.
  cbv iota.
  unfold hex4_value.
  rewrite !hex_value_digit.
  - replace (((c / 4096 * 16 + (c / 256) mod 16) * 16 + (c / 16) mod 16) * 16 + c mod 16)
      with c; [reflexivity|].
    pose proof (N.div_mod c 16) as H1.
    pose proof (N.div_mod (c / 16) 16) as H2.
    pose proof (N.div_mod (c / 256) 16) as H3.
    rewrite N.Div0.div_div in H2. change (16 * 16) with 256 in H2.
    rewrite N.Div0.div_div in H3. change (256 * 16) with 4096 in H3.
    lia.
  - apply N.mod_upper_bound. discriminate.
  - apply N.mod_upper_bound. discriminate.
  - apply N.mod_upper_bound. discriminate.
  - apply N.Div0.div_lt_upper_bound. exact H.
Qed.

Lemma parse_raw_char (c : N) (rest : list N) :
  c <> dquote -> c <> backslash -> 32 <= c ->
  parse_string_chars (c :: rest) = cons_char c (parse_string_chars rest).
Proof.
  intros Hq Hb Hc. cbn [parse_string_chars].
  apply N.eqb_neq in Hq, Hb. rewrite Hq, Hb.
  apply N.ltb_ge in Hc. rewrite Hc. reflexivity.
Qed.

Lemma surrogate_bounds (c : N) :
  is_high_surrogate c || is_low_surrogate c = true -> 55296 <= c < 65536.
Proof.
  unfold is_high_surrogate, is_low_surrogate. intros H.
  apply orb_true_iff in H as [H|H]; apply andb_true_iff in H as [H1 H2];
    apply N.leb_le in H1, H2; lia.
Qed.

Lemma parse_string_quote_aux (n : nat) :
  forall s rest, (length s <= n)%nat ->
    parse_string_chars (quote_chars s ++ dquote :: rest) = Some (s, rest).
Proof.
  induction n as [|n IH]; intros s rest Hn.
  - destruct s; [reflexivity | simpl in Hn; lia].
  - destruct s as [|c r]; [reflexivity|].
    cbn [length] in Hn. cbn [quote_chars].
    assert (IHr : parse_string_chars (quote_chars r ++ dquote :: rest) = Some (r, rest))
      by (apply IH; lia).
    repeat match goal with
           | |- context [if c =? ?k then _ else _] =>
               let E := fresh "E" in
               destruct (c =? k) eqn:E;
               [apply N.eqb_eq in E; subst c;
                transitivity (cons_char k (parse_string_chars (quote_chars r ++ dquote :: rest)));
                [reflexivity | rewrite IHr; reflexivity]
               | apply N.eqb_neq in E]
           end.
    destruct (c <? 32) eqn:E32.
    { apply N.ltb_lt in E32. rewrite <- app_assoc, parse_unicode_escape by lia.
      rewrite IHr. reflexivity. }
    apply N.ltb_ge in E32.
    destruct (is_high_surrogate c) eqn:Eh.
    { assert (Hc : 55296 <= c < 65536) by (apply surrogate_bounds; rewrite Eh; reflexivity).
      destruct r as [|d r'].
      - rewrite parse_unicode_escape by lia. reflexivity.
      - destruct (is_low_surrogate d) eqn:El.
        + assert (Hd : 55296 <= d < 65536)
            by (apply surrogate_bounds; rewrite El; apply orb_true_r).
          cbn [length] in Hn. rewrite <- !app_comm_cons.
          rewrite !parse_raw_char by (unfold dquote, backslash; lia).
          rewrite IH by lia. reflexivity.
        + rewrite <- app_assoc, parse_unicode_escape by lia.
          rewrite IHr. reflexivity. }
    destruct (is_low_surrogate c) eqn:El.
    { assert (Hc : 55296 <= c < 65536) by (apply surrogate_bounds; rewrite El; apply orb_true_r).
      rewrite <- app_assoc, parse_unicode_escape by lia.
      rewrite IHr. reflexivity. }
    rewrite <- app_comm_cons, parse_raw_char by assumption.
    rewrite IHr. reflexivity.
Qed.

(** Reading back a quoted string gives the string. *)
Lemma parse_string_quote (s : jsstring) (rest : list N) :
  parse_string_chars (quote_chars s ++ dquote :: rest) = Some (s, rest).
Proof. apply (parse_string_quote_aux (length s)). lia. Qed.

Lemma parse_value_string (f : nat) (s : jsstring) (rest : list N) :
  parse_value (S f) (dquote :: quote_chars s ++ dquote :: rest) = POk (JString s) rest.
Proof.
  cbn [parse_value].
  change (skip_ws (dquote :: quote_chars s ++ dquote :: rest))
    with (dquote :: quote_chars s ++ dquote :: rest).
  cbv iota. change (dquote =? ch "{") with false. change (dquote =? ch "[") with false.
  change (dquote =? dquote) with true. cbv iota.
  rewrite parse_string_quote. reflexivity.
Qed.

Lemma parse_members_last (f : nat) (acc : obj json) (k v : jsstring) (rest : list N) :
  parse_members (S (S f)) acc (string_member k v (ch "}") rest)
  = POk (JObject (obj_set k (JString v) acc)) rest.
Proof.
  unfold string_member. cbn [parse_members].
  change (skip_ws (dquote :: ?x)) with (dquote :: x).
  cbv iota. change (dquote =? dquote) with true. cbv iota.
  rewrite parse_string_quote.
  change (skip_ws (ch ":" :: ?x)) with (ch ":" :: x).
  cbv iota. change (ch ":" =? ch ":") with true. cbv iota.
  rewrite parse_value_string.
  reflexivity.
Qed.

Lemma parse_members_next (f : nat) (acc : obj json) (k v : jsstring) (rest : list N) :
  parse_members (S (S f)) acc (string_member k v (ch ",") rest)
  = parse_members (S f) (obj_set k (JString v) acc) rest.
Proof.
  unfold string_member. cbn [parse_members].
  change (skip_ws (dquote :: ?x)) with (dquote :: x).
  cbv iota. change (dquote =? dquote) with true. cbv iota.
  rewrite parse_string_quote.
  change (skip_ws (ch ":" :: ?x)) with (ch ":" :: x).
  cbv iota. change (ch ":" =? ch ":") with true. cbv iota.
  rewrite parse_value_string.
  reflexivity.
Qed.

Lemma parse_value_object (f : nat) (s : list N) :
  parse_value (S f) (ch "{" :: dquote :: s) = parse_members f [] (dquote :: s).
Proof. reflexivity. Qed.

Lemma parse_fuel_lower (s : list N) (n : nat) :
  (n <= length s)%nat -> exists f, parse_fuel s = (n + f)%nat.
Proof. intros H. exists (2 * length s + 2 - n)%nat. unfold parse_fuel. lia. Qed.

Lemma stringify_string_member (k v : jsstring) (c : N) (rest : list N) :
  (QuoteJSONString k ++ ch ":" :: JSON_stringify (JString v)) ++ c :: rest
  = string_member k v c rest.
Proof.
  unfold string_member, QuoteJSONString. cbn [JSON_stringify]. unfold QuoteJSONString.
  rewrite <- !app_comm_cons, <- !app_assoc.
  rewrite <- !app_comm_cons, <- !app_assoc.
  reflexivity.
Qed.

Lemma stringify_object_one (k : jsstring) (v : json) :
  JSON_stringify (JObject [(k, v)])
  = ch "{" :: (QuoteJSONString k ++ ch ":" :: JSON_stringify v) ++ [ch "}"].
Proof. reflexivity. Qed.

Lemma stringify_object_two (k1 k2 : jsstring) (v1 v2 : json) :
  JSON_stringify (JObject [(k1, v1); (k2, v2)])
  = ch "{" :: (QuoteJSONString k1 ++ ch ":" :: JSON_stringify v1)
           ++ ch "," :: (QuoteJSONString k2 ++ ch ":" :: JSON_stringify v2) ++ [ch "}"].
Proof.
  cbn [JSON_stringify map join fst snd]. rewrite <- !app_assoc. reflexivity.
Qed.

Lemma error_body_text (msg : jsstring) :
  error_body msg = ch "{" :: string_member (str "error") msg (ch "}") [].
Proof.
  unfold error_body.
  change (obj_literal [(str "error", JString msg)]) with [(str "error", JString msg)].
  rewrite stringify_object_one, stringify_string_member. reflexivity.
Qed.

Lemma JSON_parse_error_body (msg : jsstring) :
  JSON_parse (error_body msg) = Some (JObject [(str "error", JString msg)]).
Proof.
  unfold JSON_parse.
  destruct (parse_fuel_lower (error_body msg) 3) as [f ->].
  { rewrite error_body_text. unfold string_member. cbn [length].
    rewrite !length_app. cbn [length]. lia. }
  rewrite error_body_text. cbn [Nat.add].
  unfold string_member at 1. rewrite parse_value_object.
  fold (string_member (str "error") msg (ch "}") []).
  rewrite parse_members_last. reflexivity.
Qed.

Lemma error_details_text (e d : jsstring) :
  JSON_stringify (error_details e d)
  = ch "{" :: string_member (str "error") e (ch ",")
                (string_member (str "details") d (ch "}") []).
Proof.
  unfold error_details.
  rewrite stringify_object_two, !stringify_string_member. reflexivity.
Qed.

Lemma JSON_parse_error_details (e d : jsstring) :
  JSON_parse (JSON_stringify (error_details e d)) = Some (error_details e d).
Proof.
  unfold JSON_parse.
  destruct (parse_fuel_lower (JSON_stringify (error_details e d)) 4) as [f ->].
  { rewrite error_details_text. unfold string_member. cbn [length].
    rewrite !length_app. cbn [length]. lia. }
  rewrite error_details_text. cbn [Nat.add].
  unfold string_member at 1. rewrite parse_value_object.
  fold (string_member (str "error") e (ch ",") (string_member (str "details") d (ch "}") [])).
  rewrite parse_members_next, parse_members_last. reflexivity.
Qed.

(** A three-digit status code is printed as its three digits. *)
Lemma status_text (s : N) :
  100 <= s <= 999 -> Number_toString (number_of_N s) = map digit_char (N_digits s).
Proof.
  intros H.
  assert (Hall : forallb (fun n => jsstring_eqb (Number_toString (number_of_N n))
                                     (map digit_char (N_digits n)))
                   (map N.of_nat (seq 100 900)) = true) by (vm_compute; reflexivity).
  rewrite forallb_forall in Hall. apply jsstring_eqb_spec, Hall.
  apply in_map_iff. exists (N.to_nat s). split; [lia|]. apply in_seq. lia.
Qed.

(** ** The branches of the handler *)

(** *** The call and its outcomes *)

Lemma call_gemini_rejects u rb w err :
  upstream w u (fetch_init rb) = Rejects err ->
  call_gemini u rb w
  = (Ok (failure_response err), [log_calling; FetchCall u (fetch_init rb); log_failure err]).
Proof.
  intros H. unfold call_gemini, try_catch, bind, console_log, fetch. rewrite H. reflexivity.
Qed.

Lemma call_gemini_body_error u rb w r err :
  upstream w u (fetch_init rb) = Resolves r -> body_read r = inr err ->
  call_gemini u rb w
  = (Ok (failure_response err), [log_calling; FetchCall u (fetch_init rb); log_failure err]).
Proof.
  intros H Hb. unfold call_gemini, try_catch, bind, console_log, fetch. rewrite H.
  unfold text, json_. rewrite Hb. destruct (ok r); reflexivity.
Qed.

Lemma call_gemini_not_ok u rb w r errorText :
  upstream w u (fetch_init rb) = Resolves r -> ok r = false -> body_read r = inl errorText ->
  call_gemini u rb w
  = (Ok (upstream_error_response r errorText),
     [log_calling; FetchCall u (fetch_init rb);
      ConsoleError [LString (str "Gemini API Error:"); LString errorText]]).
Proof.
  intros H Hok Hb. unfold call_gemini, try_catch, bind, console_log, fetch. rewrite H, Hok.
  unfold text. rewrite Hb. reflexivity.
Qed.

Lemma call_gemini_ok u rb w r t data :
  upstream w u (fetch_init rb) = Resolves r -> ok r = true -> body_read r = inl t ->
  JSON_parse t = Some data ->
  call_gemini u rb w
  = (Ok (mk_response 200 (corsHeaders []) (Some (JSON_stringify data))),
     [log_calling; FetchCall u (fetch_init rb)]).
Proof.
  intros H Hok Hb Hp. unfold call_gemini, try_catch, bind, console_log, fetch. rewrite H, Hok.
  unfold json_. rewrite Hb, Hp. reflexivity.
Qed.

Lemma call_gemini_ok_not_json u rb w r t :
  upstream w u (fetch_init rb) = Resolves r -> ok r = true -> body_read r = inl t ->
  JSON_parse t = None ->
  call_gemini u rb w
  = (Ok (failure_response (json_failure r)),
     [log_calling; FetchCall u (fetch_init rb); log_failure (json_failure r)]).
Proof.
  intros H Hok Hb Hp. unfold call_gemini, try_catch, bind, console_log, fetch. rewrite H, Hok.
  unfold json_. rewrite Hb, Hp. reflexivity.
Qed.

(** Whatever the network answers, the call returns a response carrying
    the CORS headers, after exactly one [fetch], the one of [u]. *)
Lemma call_gemini_returns u rb w :
  exists r tail,
    call_gemini u rb w = (Ok r, log_calling :: FetchCall u (fetch_init rb) :: tail)
    /\ headers r = corsHeaders []
    /\ (forall u' i', ~ In (FetchCall u' i') tail).
Proof.
  destruct (upstream w u (fetch_init rb)) as [r|err] eqn:H.
  - destruct (body_read r) as [t|err] eqn:Hb.
    + destruct (ok r) eqn:Hok.
      * destruct (JSON_parse t) as [data|] eqn:Hp.
        -- rewrite (call_gemini_ok _ _ _ _ _ _ H Hok Hb Hp).
           do 2 eexists. repeat split. intros u' i' [].
        -- rewrite (call_gemini_ok_not_json _ _ _ _ _ H Hok Hb Hp).
           do 2 eexists. repeat split. intros u' i' [F|[]]. discriminate F.
      * rewrite (call_gemini_not_ok _ _ _ _ _ H Hok Hb).
        do 2 eexists. repeat split. intros u' i' [F|[]]. discriminate F.
    + rewrite (call_gemini_body_error _ _ _ _ _ H Hb).
      do 2 eexists. repeat split. intros u' i' [F|[]]. discriminate F.
  - rewrite (call_gemini_rejects _ _ _ _ H).
    do 2 eexists. repeat split. intros u' i' [F|[]]. discriminate F.
Qed.

Lemma call_gemini_fetch u rb w u' i' :
  In (FetchCall u' i') (snd (call_gemini u rb w)) -> u' = u /\ i' = fetch_init rb.
Proof.
  destruct (call_gemini_returns u rb w) as (r & tail & -> & _ & Ht).
  cbn [snd]. intros [F|[F|F]].
  - discriminate F.
  - injection F as <- <-. split; reflexivity.
  - destruct (Ht _ _ F).
Qed.

(** *** Validation and forwarding *)

Lemma forward_null w :
  forward JNull w
  = (Throw (TypeError (str "Cannot read properties of null (reading 'contents')")), []).
Proof. reflexivity. Qed.

Lemma forward_rejected payload contents w :
  get_prop payload (str "contents") = Ok contents ->
  negb (truthy contents) || negb (Array_isArray contents) = true ->
  forward payload w = (Ok missing_contents_response, []).
Proof.
  intros Hg Hc. unfold forward, bind, lift. rewrite Hg, Hc. reflexivity.
Qed.

(** The test of [payload.contents] passes on arrays only. *)
Lemma contents_test_passes (contents : option json) :
  negb (truthy contents) || negb (Array_isArray contents) = false
  <-> exists elems, contents = Some (JArray elems).
Proof.
  split.
  - destruct contents as [[| | | |elems|]|]; simpl; intros H;
      try discriminate; try (rewrite orb_true_r in H; discriminate).
    eauto.
  - intros [elems ->]. reflexivity.
Qed.

(** Only an object has an array under [contents]. *)
Lemma contents_array_object payload elems :
  get_prop payload (str "contents") = Ok (Some (JArray elems)) ->
  exists members, payload = JObject members
                  /\ obj_get (str "contents") members = Some (JArray elems).
Proof.
  destruct payload as [| | |s|l|members]; cbn [get_prop]; try discriminate.
  intros H. injection H as H. eauto.
Qed.

Lemma forward_object members elems w :
  obj_get (str "contents") members = Some (JArray elems) ->
  forward (JObject members) w
  = match ToString (or_else (obj_get (str "model") members) default_model) with
    | Some model_text =>
        call_gemini (apiUrl model_text (env_text (GEMINI_API_KEY w)))
          (requestBody (Some (JArray elems)) (obj_get (str "generationConfig") members)) w
    | None => (Throw (TypeError (str "Cannot convert object to primitive value")), [])
    end.
Proof.
  intros Hc. unfold forward, bind, lift, interpolate, process_env_GEMINI_API_KEY.
  cbn [get_prop]. rewrite Hc. cbn [truthy Array_isArray negb orb].
  destruct (ToString (or_else (obj_get (str "model") members) default_model)) as [mt|].
  - unfold ret.
    destruct (call_gemini _ _ w) as [r t]. reflexivity.
  - reflexivity.
Qed.

(** *** Dispatch *)

Lemma handler_post e w :
  httpMethod e = str "POST" ->
  handler e w
  = if key_missing (GEMINI_API_KEY w) then (Ok missing_key_response, [])
    else match JSON_parse (body_or_empty_object (body e)) with
         | Some payload => forward payload w
         | None => (Ok invalid_json_response, [])
         end.
Proof.
  intros H. unfold handler. rewrite H.
  change (jsstring_eqb (str "POST") (str "OPTIONS")) with false.
  change (jsstring_eqb (str "POST") (str "GET")) with false.
  change (jsstring_eqb (str "POST") (str "POST")) with true.
  cbv iota. cbn [negb]. cbv iota.
  unfold bind, process_env_GEMINI_API_KEY.
  destruct (key_missing (GEMINI_API_KEY w)); [reflexivity|].
  destruct (JSON_parse (body_or_empty_object (body e))) as [payload|]; [|reflexivity].
  cbn [app]. destruct (forward payload w). reflexivity.
Qed.

Lemma requestBody_fields (elems : list json) (supplied : option json) :
  requestBody (Some (JArray elems)) supplied
  = JObject [(str "contents", JArray elems);
             (str "generationConfig", or_else supplied default_generationConfig)].
Proof. reflexivity. Qed.

Lemma forward_headers payload w r :
  fst (forward payload w) = Ok r -> headers r = corsHeaders [].
Proof.
  destruct (get_prop payload (str "contents")) as [contents|err] eqn:Hg.
  - destruct (negb (truthy contents) || negb (Array_isArray contents)) eqn:Ht.
    + rewrite (forward_rejected _ _ _ Hg Ht). intros H. injection H as <-. reflexivity.
    + apply contents_test_passes in Ht as [elems ->].
      destruct (contents_array_object _ _ Hg) as (members & -> & Hc).
      rewrite (forward_object _ _ _ Hc).
      destruct (ToString _) as [mt|]; [|discriminate].
      destruct (call_gemini_returns (apiUrl mt (env_text (GEMINI_API_KEY w)))
                  (requestBody (Some (JArray elems))
                     (obj_get (str "generationConfig") members)) w)
        as (r' & tail & -> & Hh & _).
      intros H. injection H as <-. exact Hh.
  - unfold forward, bind, lift. rewrite Hg. discriminate.
Qed.

Lemma handler_headers e w r :
  fst (handler e w) = Ok r -> headers r = corsHeaders [].
Proof.
  destruct (jsstring_eqb (httpMethod e) (str "POST")) eqn:Hm.
  - apply jsstring_eqb_spec in Hm. rewrite (handler_post _ _ Hm).
    destruct (key_missing (GEMINI_API_KEY w)).
    { intros H. injection H as <-. reflexivity. }
    destruct (JSON_parse (body_or_empty_object (body e))) as [payload|].
    + apply forward_headers.
    + intros H. injection H as <-. reflexivity.
  - unfold handler. rewrite Hm.
    destruct (jsstring_eqb (httpMethod e) (str "OPTIONS")).
    { intros H. injection H as <-. reflexivity. }
    destruct (jsstring_eqb (httpMethod e) (str "GET"));
      intros H; injection H as <-; reflexivity.
Qed.

(** ** The claims of the specification *)

(** C1. Every response the handler produces, on every branch (preflight,
    health check, method rejection, each validation failure, upstream
    error relay, transport failure, success), carries the four fixed
    headers [Access-Control-Allow-Origin: *],
    [Access-Control-Allow-Methods: POST,OPTIONS,GET],
    [Access-Control-Allow-Headers: Content-Type, Authorization] and
    [Content-Type: application/json]; it carries no fifth. *)
Theorem cors_headers_on_every_response (e : Event) (w : World) (r : HttpResponse) :
  fst (handler e w) = Ok r ->
  obj_get (str "Access-Control-Allow-Origin") (headers r) = Some (str "*")
  /\ obj_get (str "Access-Control-Allow-Methods") (headers r) = Some (str "POST,OPTIONS,GET")
  /\ obj_get (str "Access-Control-Allow-Headers") (headers r)
     = Some (str "Content-Type, Authorization")
  /\ obj_get (str "Content-Type") (headers r) = Some (str "application/json")
  /\ length (headers r) = 4%nat.
Proof.
  intros H. rewrite (handler_headers _ _ _ H). repeat split.
Qed.

Lemma cors_headers_on_every_response_witness :
  let r := mk_response 200 (corsHeaders []) (Some (qstr "{'candidates':[]}")) in
  fst (handler sample_post (sample_world (answer 200 "{'candidates': []}"))) = Ok r
  /\ obj_get (str "Content-Type") (headers r) = Some (str "application/json").
Proof.
  intros r.
  assert (H : fst (handler sample_post (sample_world (answer 200 "{'candidates': []}"))) = Ok r)
    by (vm_compute; reflexivity).
  split; [exact H|].
  apply (cors_headers_on_every_response _ _ _ H).
Defined.

(** *** Valid POSTs

    What holds of an invocation whose POST passes validation, and of
    the call [fetch(u, i)] it makes. *)

Section ValidPost.

Variables (e : Event) (w : World) (payload : json) (elems : list json).
Hypothesis Hvalid : valid_post e w payload elems.

Lemma valid_post_object :
  exists members,
    payload = JObject members /\ obj_get (str "contents") members = Some (JArray elems).
Proof. destruct Hvalid as (_ & _ & _ & Hc). exact (contents_array_object _ _ Hc). Qed.

(** Either the model cannot be written into the URL and the handler
    throws before any call, or the invocation is one call. *)
Lemma handler_valid_post :
  exists supplied model_prop,
    get_prop payload (str "generationConfig") = Ok supplied
    /\ get_prop payload (str "model") = Ok model_prop
    /\ handler e w
       = match ToString (or_else model_prop default_model) with
         | Some model_text =>
             call_gemini (apiUrl model_text (env_text (GEMINI_API_KEY w)))
               (requestBody (Some (JArray elems)) supplied) w
         | None => (Throw (TypeError (str "Cannot convert object to primitive value")), [])
         end.
Proof.
  destruct valid_post_object as (members & -> & Hg).
  destruct Hvalid as (Hm & Hk & Hp & _).
  exists (obj_get (str "generationConfig") members), (obj_get (str "model") members).
  repeat split.
  rewrite (handler_post _ _ Hm), Hk, Hp. apply forward_object. exact Hg.
Qed.

Variables (u : jsstring) (i : RequestInit).
Hypothesis Hcall : upstream_call e w u i.

(** The call is the one built from the payload, and the invocation is
    that call. *)
Lemma valid_post_call :
  exists supplied,
    get_prop payload (str "generationConfig") = Ok supplied
    /\ i = fetch_init (requestBody (Some (JArray elems)) supplied)
    /\ handler e w = call_gemini u (requestBody (Some (JArray elems)) supplied) w.
Proof.
  destruct handler_valid_post as (supplied & model_prop & Hs & _ & Hh).
  exists supplied. split; [exact Hs|].
  unfold upstream_call in Hcall. rewrite Hh in Hcall |- *.
  destruct (ToString (or_else model_prop default_model)) as [mt|].
  - apply call_gemini_fetch in Hcall as [-> ->]. split; reflexivity.
  - destruct Hcall.
Qed.

(** The call is made once. *)
Lemma valid_post_calls_once : fetch_count e w = 1%nat.
Proof.
  destruct valid_post_call as (supplied & _ & _ & Hh). unfold fetch_count. rewrite Hh.
  destruct (call_gemini_returns u (requestBody (Some (JArray elems)) supplied) w)
    as (r & tail & -> & _ & Ht).
  cbn [snd filter is_fetch log_calling length]. f_equal.
  induction tail as [|x tail IH]; [reflexivity|].
  destruct x as [args|args|u' i']; cbn [filter is_fetch].
  - apply IH. intros u' i' F. apply (Ht u' i'). right. exact F.
  - apply IH. intros u' i' F. apply (Ht u' i'). right. exact F.
  - destruct (Ht u' i'). left. reflexivity.
Qed.

(** C2, as amended.  On a valid POST, when the upstream answers with a
    success status and its body parses as JSON, the handler responds 200
    and its body is [JSON.stringify] of the parsed upstream body: the
    upstream JSON re-serialised, not the upstream text itself. *)
Theorem success_relays_parsed_upstream_body
    (r : FetchResponse) (t : jsstring) (data : json) :
  upstream w u i = Resolves r ->
  ok r = true ->
  body_read r = inl t ->
  JSON_parse t = Some data ->
  fst (handler e w) = Ok (mk_response 200 (corsHeaders []) (Some (JSON_stringify data))).
Proof.
  intros Hr Hok Hb Hp.
  destruct valid_post_call as (supplied & _ & -> & ->).
  rewrite (call_gemini_ok _ _ _ _ _ _ Hr Hok Hb Hp). reflexivity.
Qed.

(** C3. On a valid POST, when the upstream answers with a non-success
    status [S] and the body text [T], the handler responds with status
    [S] and a JSON body whose [error] field is ["Gemini API Error: S"],
    [S] written as JavaScript prints the number (the three digits of a
    three-digit code), and whose [details] field is [T]. *)
Theorem upstream_error_is_relayed (r : FetchResponse) (T : jsstring) :
  upstream w u i = Resolves r ->
  ok r = false ->
  body_read r = inl T ->
  let S := Number_toString (number_of_N (status r)) in
  let E := str "Gemini API Error: " ++ S in
  exists b,
    fst (handler e w) = Ok (mk_response (status r) (corsHeaders []) (Some b))
    /\ JSON_parse b = Some (JObject [(str "error", JString E); (str "details", JString T)])
    /\ includes E S
    /\ (100 <= status r <= 999 -> S = map digit_char (N_digits (status r))).
Proof.
  intros Hr Hok Hb S E.
  destruct valid_post_call as (supplied & _ & -> & ->).
  rewrite (call_gemini_not_ok _ _ _ _ _ Hr Hok Hb).
  eexists. split; [reflexivity|]. split; [apply JSON_parse_error_details|]. split.
  - exists (str "Gemini API Error: "), []. rewrite app_nil_r. reflexivity.
  - apply status_text.
Qed.

(** C6. On a valid POST, when the outbound call fails with an exception,
    the handler returns one response: 500, with a JSON body whose [error]
    field is the exception's message, or the fallback text when the
    exception has no message or an empty one.  The call is made once. *)
Theorem transport_failure_is_500 (err : exn) :
  upstream w u i = Rejects err ->
  let msg :=
    match message err with
    | Some m => if is_nil m then str "Failed to call Gemini API" else m
    | None => str "Failed to call Gemini API"
    end in
  fst (handler e w) = Ok (mk_response 500 (corsHeaders []) (Some (error_body msg)))
  /\ JSON_parse (error_body msg) = Some (JObject [(str "error", JString msg)])
  /\ fetch_count e w = 1%nat.
Proof.
  intros Hr msg. split; [|split; [apply JSON_parse_error_body | apply valid_post_calls_once]].
  destruct valid_post_call as (supplied & _ & -> & ->).
  rewrite (call_gemini_rejects _ _ _ _ Hr). reflexivity.
Qed.

(** C7, as amended.  On a valid POST the upstream request body is the
    serialisation of an object whose [contents] is the inbound
    [contents] and whose [generationConfig] is the inbound one when that
    is truthy (every object and array is), and otherwise, that is when it
    is missing, [null], [false], [0] or the empty string, the fixed
    default [{temperature: 0.8, topK: 40, topP: 0.95, maxOutputTokens:
    1024}]. *)
Theorem request_body_contents_and_config :
  exists supplied config,
    get_prop payload (str "generationConfig") = Ok supplied
    /\ init_body i
       = JSON_stringify (JObject [(str "contents", JArray elems);
                                  (str "generationConfig", config)])
    /\ (truthy supplied = true -> supplied = Some config)
    /\ (truthy supplied = false ->
        config = JObject [(str "temperature", JNumber (decimal 8 (-1)));
                          (str "topK", JNumber (number_of_N 40));
                          (str "topP", JNumber (decimal 95 (-2)));
                          (str "maxOutputTokens", JNumber (number_of_N 1024))]).
Proof.
  destruct valid_post_call as (supplied & Hs & -> & _).
  exists supplied, (or_else supplied default_generationConfig).
  split; [exact Hs|]. rewrite requestBody_fields. split; [reflexivity|]. split.
  - intros Ht. unfold or_else. destruct supplied as [g|]; [|discriminate Ht].
    rewrite Ht. reflexivity.
  - intros Ht. unfold or_else. destruct supplied; [rewrite Ht|]; reflexivity.
Qed.

End ValidPost.

(** The call of a valid POST whose model can be written into the URL. *)
Lemma upstream_call_of (e : Event) (w : World) (members : obj json) (elems : list json)
    (model_text : jsstring) :
  valid_post e w (JObject members) elems ->
  ToString (or_else (obj_get (str "model") members) default_model) = Some model_text ->
  upstream_call e w (apiUrl model_text (env_text (GEMINI_API_KEY w)))
    (fetch_init (requestBody (Some (JArray elems))
                   (obj_get (str "generationConfig") members))).
Proof.
  intros Hv Ht. unfold upstream_call.
  destruct (handler_valid_post _ _ _ _ Hv) as (supplied & model_prop & Hs & Hm & ->).
  cbn [get_prop] in Hs, Hm. injection Hs as <-. injection Hm as <-. rewrite Ht.
  destruct (call_gemini_returns
              (apiUrl model_text (env_text (GEMINI_API_KEY w)))
              (requestBody (Some (JArray elems)) (obj_get (str "generationConfig") members))
              w) as (r & tail & -> & _).
  right. left. reflexivity.
Qed.

Lemma success_relays_parsed_upstream_body_witness :
  fst (handler sample_post (sample_world (answer 200 "{'candidates': []}")))
  = Ok (mk_response 200 (corsHeaders []) (Some (qstr "{'candidates':[]}"))).
Proof.
  apply (success_relays_parsed_upstream_body
           sample_post (sample_world (answer 200 "{'candidates': []}"))
           sample_payload sample_contents)
    with (u := sample_url) (i := fetch_init sample_request)
         (r := mk_fetch_response 200 (inl (qstr "{'candidates': []}")) sample_json_failure)
         (t := qstr "{'candidates': []}")
         (data := JObject [(str "candidates", JArray [])]).
  - repeat split.
  - vm_compute. right. left. reflexivity.
  - reflexivity.
  - reflexivity.
  - reflexivity.
  - vm_compute. reflexivity.
Defined.

(** C2 as stated fails: a success answer whose body is not JSON gets 500,
    and one whose JSON is spaced differently is not relayed verbatim. *)
Lemma success_body_not_verbatim :
  (let w := sample_world (answer 200 "<html>ok</html>") in
   valid_post sample_post w sample_payload sample_contents
   /\ upstream_call sample_post w sample_url (fetch_init sample_request)
   /\ upstream w sample_url (fetch_init sample_request) = answer 200 "<html>ok</html>"
   /\ fst (handler sample_post w) = Ok (failure_response sample_json_failure)
   /\ statusCode (failure_response sample_json_failure) = 500)
  /\
  (let w := sample_world (answer 200 "{'candidates': []}") in
   valid_post sample_post w sample_payload sample_contents
   /\ upstream_call sample_post w sample_url (fetch_init sample_request)
   /\ upstream w sample_url (fetch_init sample_request) = answer 200 "{'candidates': []}"
   /\ fst (handler sample_post w)
      = Ok (mk_response 200 (corsHeaders []) (Some (qstr "{'candidates':[]}")))
   /\ qstr "{'candidates':[]}" <> qstr "{'candidates': []}").
Proof.
  split; cbv zeta.
  - split; [repeat split|]. split; [vm_compute; right; left; reflexivity|].
    split; [reflexivity|]. split; [vm_compute; reflexivity | reflexivity].
  - split; [repeat split|]. split; [vm_compute; right; left; reflexivity|].
    split; [reflexivity|]. split; [vm_compute; reflexivity | discriminate].
Qed.

Lemma upstream_error_is_relayed_witness :
  exists b,
    fst (handler sample_post (sample_world (answer 429 "rate limited")))
    = Ok (mk_response 429 (corsHeaders []) (Some b))
    /\ JSON_parse b = Some (JObject [(str "error", JString (str "Gemini API Error: 429"));
                                     (str "details", JString (str "rate limited"))])
    /\ includes (str "Gemini API Error: 429") (str "429").
Proof.
  assert (Hv : valid_post sample_post (sample_world (answer 429 "rate limited"))
                 sample_payload sample_contents) by (repeat split).
  assert (Hc : upstream_call sample_post (sample_world (answer 429 "rate limited"))
                 sample_url (fetch_init sample_request))
    by (vm_compute; right; left; reflexivity).
  destruct (upstream_error_is_relayed
              sample_post (sample_world (answer 429 "rate limited"))
              sample_payload sample_contents Hv
              sample_url (fetch_init sample_request) Hc
              (mk_fetch_response 429 (inl (str "rate limited")) sample_json_failure)
              (str "rate limited") eq_refl eq_refl eq_refl)
    as (b & H1 & H2 & H3 & _).
  exists b. split; [exact H1|]. split; [exact H2 | exact H3].
Defined.

Lemma transport_failure_is_500_witness :
  let w := sample_world (Rejects (mk_exn (str "FetchError") (Some (str "ECONNRESET")))) in
  fst (handler sample_post w)
  = Ok (mk_response 500 (corsHeaders []) (Some (qstr "{'error':'ECONNRESET'}")))
  /\ fetch_count sample_post w = 1%nat.
Proof.
  intros w.
  assert (Hv : valid_post sample_post w sample_payload sample_contents) by (repeat split).
  assert (Hu : upstream_call sample_post w sample_url (fetch_init sample_request))
    by (vm_compute; right; left; reflexivity).
  destruct (transport_failure_is_500 sample_post w sample_payload sample_contents
              Hv sample_url (fetch_init sample_request) Hu
              (mk_exn (str "FetchError") (Some (str "ECONNRESET"))) eq_refl)
    as (H & _ & Hc).
  split; [exact H | exact Hc].
Defined.

Lemma request_body_contents_and_config_witness :
  exists config,
    init_body (fetch_init sample_request)
    = JSON_stringify (JObject [(str "contents", JArray sample_contents);
                               (str "generationConfig", config)])
    /\ config = default_generationConfig.
Proof.
  assert (Hv : valid_post sample_post (sample_world (answer 200 "{}"))
                 sample_payload sample_contents) by (repeat split).
  assert (Hu : upstream_call sample_post (sample_world (answer 200 "{}"))
                 sample_url (fetch_init sample_request))
    by (vm_compute; right; left; reflexivity).
  destruct (request_body_contents_and_config
              sample_post (sample_world (answer 200 "{}")) sample_payload sample_contents
              Hv sample_url (fetch_init sample_request) Hu)
    as (supplied & config & Hs & Hb & _ & Hd).
  exists config. split; [exact Hb|].
  injection Hs as <-. exact (Hd eq_refl).
Defined.

(** C7 as stated fails: a [generationConfig] of [0] is supplied, and the
    default is sent in its place. *)
Lemma falsy_generationConfig_is_replaced :
  let w := sample_world (answer 200 "{}") in
  valid_post zero_config_post w (JObject zero_config_members) []
  /\ get_prop (JObject zero_config_members) (str "generationConfig")
     = Ok (Some (JNumber (number_of_N 0)))
  /\ upstream_call zero_config_post w sample_url (fetch_init zero_config_request)
  /\ init_body (fetch_init zero_config_request)
     = qstr "{'contents':[],'generationConfig':{'temperature':0.8,'topK':40,'topP':0.95,'maxOutputTokens':1024}}"
  /\ init_body (fetch_init zero_config_request)
     <> JSON_stringify (JObject zero_config_members).
Proof.
  cbv zeta. split; [repeat split|]. split; [reflexivity|].
  split; [vm_compute; right; left; reflexivity|].
  split; [vm_compute; reflexivity | vm_compute; discriminate].
Qed.

(** *** Validation *)

(** C4. On a POST, whatever its body, when the secret is absent the
    handler responds 500 with an error object that explains it, and makes
    no outbound call. *)
Theorem missing_secret_is_500_without_call (e : Event) (w : World) :
  httpMethod e = str "POST" ->
  key_missing (GEMINI_API_KEY w) = true ->
  let msg := str "GEMINI_API_KEY not configured in Netlify environment variables" in
  handler e w = (Ok (mk_response 500 (corsHeaders []) (Some (error_body msg))), [])
  /\ JSON_parse (error_body msg) = Some (JObject [(str "error", JString msg)])
  /\ fetch_count e w = 0%nat.
Proof.
  intros Hm Hk msg. unfold fetch_count. rewrite (handler_post _ _ Hm), Hk.
  split; [reflexivity|]. split; [apply JSON_parse_error_body | reflexivity].
Qed.

Lemma missing_secret_is_500_without_call_witness :
  key_missing None = true
  /\ fst (handler sample_post (world_of None (answer 200 "{}")))
     = Ok missing_key_response
  /\ fetch_count sample_post (world_of None (answer 200 "{}")) = 0%nat.
Proof.
  split; [reflexivity|].
  destruct (missing_secret_is_500_without_call
              sample_post (world_of None (answer 200 "{}")) eq_refl eq_refl)
    as (H & _ & Hc).
  split; [rewrite H; reflexivity | exact Hc].
Defined.

(** C5, the failing input.  The body text [null] parses as JSON, to the
    value [null], which has no [contents]; yet the handler answers no
    400: reading [contents] of [null] throws outside any [try], and the
    invocation ends with that [TypeError] instead of a response. *)
Theorem null_body_throws (w : World) :
  key_missing (GEMINI_API_KEY w) = false ->
  JSON_parse (str "null") = Some JNull
  /\ handler (mk_event (str "POST") (BodyString (str "null"))) w
     = (Throw (TypeError (str "Cannot read properties of null (reading 'contents')")), []).
Proof.
  intros Hk. split; [reflexivity|].
  rewrite handler_post by reflexivity. rewrite Hk. reflexivity.
Qed.

Lemma null_body_throws_witness :
  key_missing (GEMINI_API_KEY (sample_world (answer 200 "{}"))) = false
  /\ fst (handler (mk_event (str "POST") (BodyString (str "null")))
            (sample_world (answer 200 "{}")))
     = Throw (TypeError (str "Cannot read properties of null (reading 'contents')")).
Proof.
  split; [reflexivity|].
  destruct (null_body_throws (sample_world (answer 200 "{}")) eq_refl) as [_ H].
  rewrite H. reflexivity.
Defined.

Lemma get_prop_not_null (payload : json) (k : jsstring) :
  payload <> JNull -> exists v, get_prop payload k = Ok v.
Proof.
  destruct payload; intros H; try congruence; cbn [get_prop]; eauto.
  - destruct (array_index k); eauto.
    destruct (jsstring_eqb k (str "length")); eauto.
  - destruct (array_index k); eauto.
    destruct (jsstring_eqb k (str "length")); eauto.
Qed.

(** Every other body that fails validation is answered 400 with an error
    object, and without an outbound call. *)
Lemma validation_failure_is_400 (e : Event) (w : World) :
  httpMethod e = str "POST" ->
  key_missing (GEMINI_API_KEY w) = false ->
  (JSON_parse (body_or_empty_object (body e)) = None
   \/ exists payload,
        JSON_parse (body_or_empty_object (body e)) = Some payload
        /\ payload <> JNull
        /\ forall elems, get_prop payload (str "contents") <> Ok (Some (JArray elems))) ->
  exists msg,
    handler e w = (Ok (mk_response 400 (corsHeaders []) (Some (error_body msg))), [])
    /\ JSON_parse (error_body msg) = Some (JObject [(str "error", JString msg)]).
Proof.
  intros Hm Hk H. rewrite (handler_post _ _ Hm), Hk.
  destruct H as [-> | (payload & -> & Hn & Ha)].
  - eexists. split; [reflexivity | apply JSON_parse_error_body].
  - destruct (get_prop_not_null payload (str "contents") Hn) as [contents Hg].
    destruct (negb (truthy contents) || negb (Array_isArray contents)) eqn:Ht.
    + rewrite (forward_rejected _ _ _ Hg Ht).
      eexists. split; [reflexivity | apply JSON_parse_error_body].
    + apply contents_test_passes in Ht as [elems ->]. destruct (Ha _ Hg).
Qed.

(** The handler ends without a response in two cases only: the payload
    is [null], or the model cannot be written into the URL. *)
Lemma handler_throws_only (e : Event) (w : World) (err : exn) :
  fst (handler e w) = Throw err ->
  exists payload,
    httpMethod e = str "POST"
    /\ key_missing (GEMINI_API_KEY w) = false
    /\ JSON_parse (body_or_empty_object (body e)) = Some payload
    /\ (payload = JNull
        \/ exists members,
             payload = JObject members
             /\ ToString (or_else (obj_get (str "model") members) default_model) = None).
Proof.
  destruct (jsstring_eqb (httpMethod e) (str "POST")) eqn:Hm.
  - apply jsstring_eqb_spec in Hm. rewrite (handler_post _ _ Hm).
    destruct (key_missing (GEMINI_API_KEY w)) eqn:Hk; [discriminate|].
    destruct (JSON_parse (body_or_empty_object (body e))) as [payload|] eqn:Hp;
      [|discriminate].
    intros H. exists payload. repeat split; try assumption.
    assert (Hn : payload = JNull \/ payload <> JNull)
      by (destruct payload; (left; reflexivity) || (right; discriminate)).
    destruct Hn as [Hn|Hn]; [left; exact Hn | right].
    destruct (get_prop_not_null payload (str "contents") Hn) as [contents Hg].
    destruct (negb (truthy contents) || negb (Array_isArray contents)) eqn:Ht.
    + rewrite (forward_rejected _ _ _ Hg Ht) in H. discriminate H.
    + apply contents_test_passes in Ht as [elems ->].
      destruct (contents_array_object _ _ Hg) as (members & -> & Hc).
      exists members. split; [reflexivity|].
      rewrite (forward_object _ _ _ Hc) in H.
      destruct (ToString _) as [mt|]; [|reflexivity].
      destruct (call_gemini_returns (apiUrl mt (env_text (GEMINI_API_KEY w)))
                  (requestBody (Some (JArray elems))
                     (obj_get (str "generationConfig") members)) w)
        as (r & tail & Hr & _).
      rewrite Hr in H. discriminate H.
  - unfold handler. rewrite Hm.
    destruct (jsstring_eqb (httpMethod e) (str "OPTIONS")); [discriminate|].
    destruct (jsstring_eqb (httpMethod e) (str "GET")); discriminate.
Qed.

Lemma upstream_error_body_differs (E T : jsstring) :
  JSON_stringify (error_details (str "Gemini API Error: " ++ E) T)
  <> error_body (str "Invalid JSON body").
Proof.
  rewrite error_details_text, error_body_text. intros H.
  apply (f_equal (fun l => nth 10 l 0)) in H. vm_compute in H. discriminate H.
Qed.

Lemma forward_not_invalid_json payload w :
  fst (forward payload w) <> Ok invalid_json_response.
Proof.
  destruct (get_prop payload (str "contents")) as [contents|err] eqn:Hg.
  - destruct (negb (truthy contents) || negb (Array_isArray contents)) eqn:Ht.
    + rewrite (forward_rejected _ _ _ Hg Ht). intros H. vm_compute in H. discriminate H.
    + apply contents_test_passes in Ht as [elems ->].
      destruct (contents_array_object _ _ Hg) as (members & -> & Hc).
      rewrite (forward_object _ _ _ Hc).
      destruct (ToString _) as [mt|]; [|discriminate].
      set (u := apiUrl mt (env_text (GEMINI_API_KEY w))).
      set (rb := requestBody (Some (JArray elems)) (obj_get (str "generationConfig") members)).
      destruct (upstream w u (fetch_init rb)) as [r|err] eqn:H.
      * destruct (body_read r) as [t|err] eqn:Hb.
        -- destruct (ok r) eqn:Hok.
           ++ destruct (JSON_parse t) as [data|] eqn:Hp.
              ** rewrite (call_gemini_ok _ _ _ _ _ _ H Hok Hb Hp). discriminate.
              ** rewrite (call_gemini_ok_not_json _ _ _ _ _ H Hok Hb Hp). discriminate.
           ++ rewrite (call_gemini_not_ok _ _ _ _ _ H Hok Hb).
              cbn [fst]. intros F.
              apply (f_equal (fun x => match x with
                                       | Ok resp => response_body resp
                                       | Throw _ => None
                                       end)) in F.
              apply (f_equal (fun o => match o with Some b => b | None => [] end)) in F.
              revert F. apply upstream_error_body_differs.
        -- rewrite (call_gemini_body_error _ _ _ _ _ H Hb). discriminate.
      * rewrite (call_gemini_rejects _ _ _ _ H). discriminate.
  - unfold forward, bind, lift. rewrite Hg. discriminate.
Qed.

(** C9. On a POST with the secret configured, a body that is absent,
    [null] or the empty string is read as the empty object and answered
    400 with the missing-[contents] error; and the invalid-JSON answer is
    given only to a non-empty body that fails to parse. *)
Theorem empty_body_is_missing_contents :
  (forall (e : Event) (w : World),
      httpMethod e = str "POST" ->
      key_missing (GEMINI_API_KEY w) = false ->
      body e = BodyUndefined \/ body e = BodyNull \/ body e = BodyString [] ->
      JSON_parse (body_or_empty_object (body e)) = Some (JObject [])
      /\ handler e w
         = (Ok (mk_response 400 (corsHeaders [])
                  (Some (error_body (qstr "Request must include 'contents' array")))), []))
  /\
  (forall (e : Event) (w : World),
      fst (handler e w)
      = Ok (mk_response 400 (corsHeaders []) (Some (error_body (str "Invalid JSON body")))) ->
      exists s, body e = BodyString s /\ s <> [] /\ JSON_parse s = None).
Proof.
  split.
  - intros e w Hm Hk Hb.
    assert (Hp : body_or_empty_object (body e) = str "{}")
      by (destruct Hb as [-> | [-> | ->]]; reflexivity).
    rewrite (handler_post _ _ Hm), Hk, Hp. split; reflexivity.
  - intros e w.
    destruct (jsstring_eqb (httpMethod e) (str "POST")) eqn:Hm.
    + apply jsstring_eqb_spec in Hm. rewrite (handler_post _ _ Hm).
      destruct (key_missing (GEMINI_API_KEY w)); [discriminate|].
      destruct (JSON_parse (body_or_empty_object (body e))) as [payload|] eqn:Hp.
      * intros H. destruct (forward_not_invalid_json _ _ H).
      * intros _. destruct (body e) as [| |s]; try discriminate Hp.
        destruct s as [|c s]; [discriminate Hp|].
        exists (c :: s). repeat split; [discriminate | exact Hp].
    + unfold handler. rewrite Hm.
      destruct (jsstring_eqb (httpMethod e) (str "OPTIONS")); [discriminate|].
      destruct (jsstring_eqb (httpMethod e) (str "GET")); [discriminate|].
      intros H. vm_compute in H. discriminate H.
Qed.

Lemma empty_body_is_missing_contents_witness :
  fst (handler (mk_event (str "POST") BodyNull) (sample_world (answer 200 "{}")))
  = Ok missing_contents_response
  /\ exists s, body (mk_event (str "POST") (BodyString (str "not json"))) = BodyString s
               /\ s <> [] /\ JSON_parse s = None.
Proof.
  split.
  - destruct (proj1 empty_body_is_missing_contents
                (mk_event (str "POST") BodyNull) (sample_world (answer 200 "{}"))
                eq_refl eq_refl (or_intror (or_introl eq_refl))) as [_ H].
    rewrite H. reflexivity.
  - apply (proj2 empty_body_is_missing_contents
             (mk_event (str "POST") (BodyString (str "not json")))
             (sample_world (answer 200 "{}"))).
    vm_compute. reflexivity.
Defined.

(** *** Determinism and what reaches the upstream *)

Lemma call_gemini_deterministic u rb w1 w2 :
  upstream w1 u (fetch_init rb) = upstream w2 u (fetch_init rb) ->
  call_gemini u rb w1 = call_gemini u rb w2.
Proof.
  intros H1. destruct (upstream w2 u (fetch_init rb)) as [r|err] eqn:H2.
  - destruct (body_read r) as [t|err] eqn:Hb.
    + destruct (ok r) eqn:Hok.
      * destruct (JSON_parse t) as [data|] eqn:Hp.
        -- rewrite (call_gemini_ok _ _ _ _ _ _ H1 Hok Hb Hp).
           rewrite (call_gemini_ok _ _ _ _ _ _ H2 Hok Hb Hp). reflexivity.
        -- rewrite (call_gemini_ok_not_json _ _ _ _ _ H1 Hok Hb Hp).
           rewrite (call_gemini_ok_not_json _ _ _ _ _ H2 Hok Hb Hp). reflexivity.
      * rewrite (call_gemini_not_ok _ _ _ _ _ H1 Hok Hb).
        rewrite (call_gemini_not_ok _ _ _ _ _ H2 Hok Hb). reflexivity.
    + rewrite (call_gemini_body_error _ _ _ _ _ H1 Hb).
      rewrite (call_gemini_body_error _ _ _ _ _ H2 Hb). reflexivity.
  - rewrite (call_gemini_rejects _ _ _ _ H1), (call_gemini_rejects _ _ _ _ H2). reflexivity.
Qed.

Lemma forward_deterministic payload w1 w2 :
  GEMINI_API_KEY w1 = GEMINI_API_KEY w2 ->
  (forall u i, In (FetchCall u i) (snd (forward payload w1)) ->
               upstream w1 u i = upstream w2 u i) ->
  forward payload w1 = forward payload w2.
Proof.
  intros Hk Hu.
  destruct (get_prop payload (str "contents")) as [contents|err] eqn:Hg.
  - destruct (negb (truthy contents) || negb (Array_isArray contents)) eqn:Ht.
    + rewrite !(forward_rejected _ _ _ Hg Ht). reflexivity.
    + apply contents_test_passes in Ht as [elems ->].
      destruct (contents_array_object _ _ Hg) as (members & -> & Hc).
      rewrite (forward_object _ _ w1 Hc) in Hu |- *. rewrite (forward_object _ _ w2 Hc).
      rewrite <- Hk.
      destruct (ToString _) as [mt|]; [|reflexivity].
      apply call_gemini_deterministic. apply Hu.
      destruct (call_gemini_returns (apiUrl mt (env_text (GEMINI_API_KEY w1)))
                  (requestBody (Some (JArray elems))
                     (obj_get (str "generationConfig") members)) w1)
        as (r & tail & -> & _).
      right. left. reflexivity.
  - unfold forward, bind, lift. rewrite Hg. reflexivity.
Qed.

(** C8. The submission path is deterministic: two runs on the same POST,
    with the same secret and a network that answers the request of the
    first run alike, give the same response (status, headers and body)
    and the same effects, whatever the clock shows in each. *)
Theorem post_is_deterministic (e : Event) (w1 w2 : World) :
  httpMethod e = str "POST" ->
  GEMINI_API_KEY w1 = GEMINI_API_KEY w2 ->
  (forall u i, upstream_call e w1 u i -> upstream w1 u i = upstream w2 u i) ->
  handler e w1 = handler e w2.
Proof.
  intros Hm Hk Hu. unfold upstream_call in Hu.
  rewrite (handler_post _ w1 Hm) in Hu |- *. rewrite (handler_post _ w2 Hm). rewrite <- Hk.
  destruct (key_missing (GEMINI_API_KEY w1)); [reflexivity|].
  destruct (JSON_parse (body_or_empty_object (body e))) as [payload|]; [|reflexivity].
  apply forward_deterministic; assumption.
Qed.

Lemma post_is_deterministic_witness :
  let w1 := mk_world (Some (str "secret")) (str "2026-01-01T00:00:00.000Z")
              (fun _ _ => answer 200 "{'candidates': []}") in
  let w2 := mk_world (Some (str "secret")) (str "2026-06-30T12:00:00.000Z")
              (fun _ _ => answer 200 "{'candidates': []}") in
  now_iso w1 <> now_iso w2 /\ handler sample_post w1 = handler sample_post w2.
Proof.
  intros w1 w2. split; [discriminate|].
  apply (post_is_deterministic sample_post w1 w2); reflexivity.
Defined.

(** C10. On a valid POST the body sent upstream has the two fields
    [contents] and [generationConfig] and no other, and nothing else of
    the inbound payload reaches it: two valid POSTs with the same
    [contents] and the same [generationConfig] send the same request
    body, method and headers, whatever their [model] and their other
    fields. *)
Theorem only_contents_and_config_are_forwarded
    (e1 e2 : Event) (w1 w2 : World) (payload1 payload2 : json) (elems : list json)
    (u1 u2 : jsstring) (i1 i2 : RequestInit) :
  valid_post e1 w1 payload1 elems ->
  valid_post e2 w2 payload2 elems ->
  get_prop payload1 (str "generationConfig") = get_prop payload2 (str "generationConfig") ->
  upstream_call e1 w1 u1 i1 ->
  upstream_call e2 w2 u2 i2 ->
  i1 = i2
  /\ exists config,
       init_body i1
       = JSON_stringify (JObject [(str "contents", JArray elems);
                                  (str "generationConfig", config)]).
Proof.
  intros Hv1 Hv2 Hg Hu1 Hu2.
  destruct (valid_post_call _ _ _ _ Hv1 _ _ Hu1) as (s1 & Hs1 & -> & _).
  destruct (valid_post_call _ _ _ _ Hv2 _ _ Hu2) as (s2 & Hs2 & -> & _).
  rewrite Hs1, Hs2 in Hg. injection Hg as <-. split; [reflexivity|].
  rewrite requestBody_fields. eexists. reflexivity.
Qed.

Lemma only_contents_and_config_are_forwarded_witness :
  let w := sample_world (answer 200 "{}") in
  upstream_call tagged_post w tagged_url (fetch_init zero_config_request)
  /\ upstream_call plain_post w sample_url (fetch_init zero_config_request)
  /\ init_body (fetch_init zero_config_request)
     = qstr "{'contents':[],'generationConfig':{'temperature':0.8,'topK':40,'topP':0.95,'maxOutputTokens':1024}}".
Proof.
  intros w.
  assert (Hv1 : valid_post tagged_post w (JObject tagged_members) []) by (repeat split).
  assert (Hv2 : valid_post plain_post w (JObject plain_members) []) by (repeat split).
  assert (Hu1 : upstream_call tagged_post w tagged_url (fetch_init zero_config_request))
    by (vm_compute; right; left; reflexivity).
  assert (Hu2 : upstream_call plain_post w sample_url (fetch_init zero_config_request))
    by (vm_compute; right; left; reflexivity).
  destruct (only_contents_and_config_are_forwarded
              tagged_post plain_post w w (JObject tagged_members) (JObject plain_members) []
              tagged_url sample_url _ _ Hv1 Hv2 eq_refl Hu1 Hu2) as [_ (config & Hc)].
  split; [exact Hu1|]. split; [exact Hu2|]. vm_compute. reflexivity.
Defined.

(** ** The examples of the specification *)

Example options_is_204 :
  handler (mk_event (str "OPTIONS") BodyUndefined) (sample_world (answer 200 "{}"))
  = (Ok (mk_response 204 (corsHeaders []) None), []).
Proof. reflexivity. Qed.

Example get_is_status_ok :
  handler (mk_event (str "GET") BodyUndefined) (sample_world (answer 200 "{}"))
  = (Ok (mk_response 200 (corsHeaders [])
           (Some (qstr "{'status':'ok','time':'2026-01-01T00:00:00.000Z'}"))), []).
Proof. vm_compute. reflexivity. Qed.

Example delete_is_405 :
  handler (mk_event (str "DELETE") BodyUndefined) (sample_world (answer 200 "{}"))
  = (Ok (mk_response 405 (corsHeaders []) (Some (qstr "{'error':'Method Not Allowed'}"))), []).
Proof. vm_compute. reflexivity. Qed.

Example not_json_is_400 :
  handler (mk_event (str "POST") (BodyString (str "not json"))) (sample_world (answer 200 "{}"))
  = (Ok invalid_json_response, []).
Proof. vm_compute. reflexivity. Qed.

Example no_contents_is_400 :
  handler (mk_event (str "POST") (BodyString (qstr "{'foo':1}"))) (sample_world (answer 200 "{}"))
  = (Ok missing_contents_response, []).
Proof. vm_compute. reflexivity. Qed.

(** A [model] that is an object with a [toString] member of its own
    cannot be written into the URL: the handler throws before any
    call. *)
Example unprintable_model_throws :
  handler (mk_event (str "POST") (BodyString (qstr "{'contents':[],'model':{'toString':1}}")))
          (sample_world (answer 200 "{}"))
  = (Throw (TypeError (str "Cannot convert object to primitive value")), []).
Proof. vm_compute. reflexivity. Qed.

(** * Further properties *)

(** ** Writing and reading a property *)

Lemma jsstring_eqb_neq (a b : jsstring) : jsstring_eqb a b = false <-> a <> b.
Proof.
  split.
  - intros H E. apply jsstring_eqb_spec in E. congruence.
  - intros H. destruct (jsstring_eqb a b) eqn:E; [|reflexivity].
    apply jsstring_eqb_spec in E. contradiction.
Qed.

Lemma jsstring_eqb_sym (a b : jsstring) : jsstring_eqb a b = jsstring_eqb b a.
Proof.
  destruct (jsstring_eqb b a) eqn:E.
  - apply jsstring_eqb_spec in E. subst. apply jsstring_eqb_refl.
  - apply jsstring_eqb_neq. apply jsstring_eqb_neq in E. congruence.
Qed.

Section ObjSet.

Context {V : Type}.
Implicit Types (o : obj V) (k : jsstring) (v : V).

Lemma obj_get_app k o o' :
  obj_get k (o ++ o')
  = match obj_get k o with
    | Some x => Some x
    | None => obj_get k o'
    end.
Proof.
  induction o as [|[k' x] o IH]; [reflexivity|]. cbn [app obj_get].
  destruct (jsstring_eqb k k'); [reflexivity | exact IH].
Qed.

Lemma obj_get_replace_same k v o :
  obj_has k o = true -> obj_get k (obj_replace k v o) = Some v.
Proof.
  unfold obj_has. induction o as [|[k' x] o IH]; [discriminate|].
  cbn [obj_get obj_replace]. destruct (jsstring_eqb k k') eqn:E.
  - intros _. cbn [obj_get]. rewrite E. reflexivity.
  - intros H. cbn [obj_get]. rewrite E. apply IH, H.
Qed.

Lemma obj_get_replace_other k k' v o :
  k' <> k -> obj_get k' (obj_replace k v o) = obj_get k' o.
Proof.
  intros Hn. induction o as [|[k0 x] o IH]; [reflexivity|].
  cbn [obj_get obj_replace]. destruct (jsstring_eqb k k0) eqn:E.
  - apply jsstring_eqb_spec in E. subst k0. cbn [obj_get].
    apply jsstring_eqb_neq in Hn. rewrite Hn. reflexivity.
  - cbn [obj_get]. destruct (jsstring_eqb k' k0); [reflexivity | exact IH].
Qed.

Lemma obj_get_insert_index_same i k v o :
  obj_has k o = false -> obj_get k (obj_insert_index i k v o) = Some v.
Proof.
  unfold obj_has. induction o as [|[k' x] o IH]; intros H.
  - cbn [obj_insert_index obj_get]. rewrite jsstring_eqb_refl. reflexivity.
  - cbn [obj_get] in H. destruct (jsstring_eqb k k') eqn:E; [discriminate H|].
    cbn [obj_insert_index]. destruct (array_index k') as [j|].
    + destruct (i <? j); cbn [obj_get].
      * rewrite jsstring_eqb_refl. reflexivity.
      * rewrite E. apply IH, H.
    + cbn [obj_get]. rewrite jsstring_eqb_refl. reflexivity.
Qed.

Lemma obj_get_insert_index_other i k k' v o :
  k' <> k -> obj_get k' (obj_insert_index i k v o) = obj_get k' o.
Proof.
  intros Hn. apply jsstring_eqb_neq in Hn.
  induction o as [|[k0 x] o IH].
  - cbn [obj_insert_index obj_get]. rewrite Hn. reflexivity.
  - cbn [obj_insert_index]. destruct (array_index k0) as [j|].
    + destruct (i <? j); cbn [obj_get].
      * rewrite Hn. reflexivity.
      * destruct (jsstring_eqb k' k0); [reflexivity | exact IH].
    + cbn [obj_get]. rewrite Hn. reflexivity.
Qed.

Lemma obj_get_set_same k v o : obj_get k (obj_set k v o) = Some v.
Proof.
  unfold obj_set. destruct (obj_has k o) eqn:H.
  - apply obj_get_replace_same, H.
  - destruct (array_index k) as [i|].
    + apply obj_get_insert_index_same, H.
    + rewrite obj_get_app. unfold obj_has in H.
      destruct (obj_get k o); [discriminate H|].
      cbn [obj_get]. rewrite jsstring_eqb_refl. reflexivity.
Qed.

Lemma obj_get_set_other k k' v o :
  k' <> k -> obj_get k' (obj_set k v o) = obj_get k' o.
Proof.
  intros Hn. unfold obj_set. destruct (obj_has k o).
  - apply obj_get_replace_other, Hn.
  - destruct (array_index k) as [i|].
    + apply obj_get_insert_index_other, Hn.
    + rewrite obj_get_app. destruct (obj_get k' o); [reflexivity|].
      cbn [obj_get]. apply jsstring_eqb_neq in Hn. rewrite Hn. reflexivity.
Qed.

(** A spread reads as its last writer: the last property of [extra]
    named [k], or else the one of [base]. *)
Lemma obj_get_spread k (base extra : obj V) :
  obj_get k (obj_spread base extra)
  = match obj_get k (rev extra) with
    | Some v => Some v
    | None => obj_get k base
    end.
Proof.
  unfold obj_spread. revert base.
  induction extra as [|[k1 v1] extra IH]; intros base; [reflexivity|].
  cbn [fold_left fst snd rev]. rewrite IH, obj_get_app.
  destruct (obj_get k (rev extra)); [reflexivity|].
  cbn [obj_get]. destruct (jsstring_eqb k k1) eqn:E.
  - apply jsstring_eqb_spec in E. subst k1. apply obj_get_set_same.
  - apply jsstring_eqb_neq in E. apply obj_get_set_other, E.
Qed.

End ObjSet.

(** ** corsHeaders *)

(** X1. [corsHeaders(extra)] reads, under every name, what [extra] gives
    for it, and what the four fixed headers give where [extra] is
    silent: the caller's headers win, and the four names are always
    there. *)
Theorem corsHeaders_extra_overrides (extra : obj jsstring) (k : jsstring) :
  obj_get k (corsHeaders extra)
  = match obj_get k (rev extra) with
    | Some v => Some v
    | None => obj_get k (corsHeaders [])
    end
  /\ obj_has (str "Access-Control-Allow-Origin") (corsHeaders extra) = true
  /\ obj_has (str "Access-Control-Allow-Methods") (corsHeaders extra) = true
  /\ obj_has (str "Access-Control-Allow-Headers") (corsHeaders extra) = true
  /\ obj_has (str "Content-Type") (corsHeaders extra) = true.
Proof.
  assert (H : forall k', obj_get k' (corsHeaders extra)
                         = match obj_get k' (rev extra) with
                           | Some v => Some v
                           | None => obj_get k' (corsHeaders [])
                           end)
    by (intros k'; unfold corsHeaders; apply obj_get_spread).
  split; [apply H|].
  unfold obj_has. rewrite !H.
  repeat split; destruct (obj_get _ (rev extra)); reflexivity.
Qed.

(** ** Every invocation takes one branch *)

Lemma call_gemini_branch u rb w : call_branch w u rb (call_gemini u rb w).
Proof.
  destruct (upstream w u (fetch_init rb)) as [r|err] eqn:H.
  - destruct (body_read r) as [t|err] eqn:Hb.
    + destruct (ok r) eqn:Hok.
      * destruct (JSON_parse t) as [data|] eqn:Hp.
        -- rewrite (call_gemini_ok _ _ _ _ _ _ H Hok Hb Hp). eapply CallOk; eassumption.
        -- rewrite (call_gemini_ok_not_json _ _ _ _ _ H Hok Hb Hp).
           eapply CallNotJson; eassumption.
      * rewrite (call_gemini_not_ok _ _ _ _ _ H Hok Hb). now apply CallNotOk.
    + rewrite (call_gemini_body_error _ _ _ _ _ H Hb). eapply CallUnreadable; eassumption.
  - rewrite (call_gemini_rejects _ _ _ _ H). now apply CallRejects.
Qed.

Lemma handler_branch e w : branch e w (handler e w).
Proof.
  destruct (jsstring_eqb (httpMethod e) (str "POST")) eqn:Hm.
  - apply jsstring_eqb_spec in Hm. rewrite (handler_post _ _ Hm).
    destruct (key_missing (GEMINI_API_KEY w)) eqn:Hk; [now apply BranchNoKey|].
    destruct (JSON_parse (body_or_empty_object (body e))) as [payload|] eqn:Hp;
      [|now apply BranchInvalidJson].
    assert (Hn : payload = JNull \/ payload <> JNull)
      by (destruct payload; (left; reflexivity) || (right; discriminate)).
    destruct Hn as [->|Hn]; [now apply BranchNull|].
    destruct (get_prop_not_null payload (str "contents") Hn) as [contents Hg].
    destruct (negb (truthy contents) || negb (Array_isArray contents)) eqn:Ht.
    + rewrite (forward_rejected _ _ _ Hg Ht).
      apply BranchNoContents with (payload := payload); try assumption.
      intros elems He. rewrite Hg in He. injection He as ->. discriminate Ht.
    + apply contents_test_passes in Ht as [elems ->].
      assert (Hv : valid_post e w payload elems) by (repeat split; assumption).
      destruct (contents_array_object _ _ Hg) as (members & -> & Hc).
      rewrite (forward_object _ _ _ Hc).
      destruct (ToString (or_else (obj_get (str "model") members) default_model))
        as [mt|] eqn:Hs.
      * apply BranchCall with (payload := JObject members) (elems := elems)
                              (model_prop := obj_get (str "model") members)
                              (supplied := obj_get (str "generationConfig") members)
                              (model_text := mt); try assumption; try reflexivity.
        apply call_gemini_branch.
      * now apply BranchModel with (payload := JObject members) (elems := elems)
                                   (model_prop := obj_get (str "model") members).
  - unfold handler. rewrite Hm. apply jsstring_eqb_neq in Hm.
    destruct (jsstring_eqb (httpMethod e) (str "OPTIONS")) eqn:Ho.
    { apply jsstring_eqb_spec in Ho. now apply BranchOptions. }
    destruct (jsstring_eqb (httpMethod e) (str "GET")) eqn:Hg.
    { apply jsstring_eqb_spec in Hg. now apply BranchGet. }
    apply jsstring_eqb_neq in Ho, Hg. now apply BranchMethod.
Qed.

Lemma call_branch_fetch w u rb res u' i' :
  call_branch w u rb res -> In (FetchCall u' i') (snd res) -> u' = u /\ i' = fetch_init rb.
Proof.
  intros H Hin. destruct H; cbn [snd] in Hin;
    repeat (destruct Hin as [F|Hin]; [try discriminate F; injection F as <- <-; split; reflexivity|]);
    destruct Hin.
Qed.

(** ** The health check *)

Lemma JSON_parse_health (now : jsstring) :
  JSON_parse (JSON_stringify
                (JObject (obj_literal [(str "status", JString (str "ok"));
                                       (str "time", JString now)])))
  = Some (JObject [(str "status", JString (str "ok")); (str "time", JString now)]).
Proof.
  change (obj_literal [(str "status", JString (str "ok")); (str "time", JString now)])
    with [(str "status", JString (str "ok")); (str "time", JString now)].
  assert (Ht : JSON_stringify (JObject [(str "status", JString (str "ok"));
                                        (str "time", JString now)])
               = ch "{" :: string_member (str "status") (str "ok") (ch ",")
                             (string_member (str "time") now (ch "}") []))
    by (rewrite stringify_object_two, !stringify_string_member; reflexivity).
  unfold JSON_parse.
  destruct (parse_fuel_lower
              (JSON_stringify (JObject [(str "status", JString (str "ok"));
                                        (str "time", JString now)])) 4) as [f ->].
  { rewrite Ht. unfold string_member. cbn [length].
    rewrite !length_app. cbn [length]. lia. }
  rewrite Ht. cbn [Nat.add].
  unfold string_member at 1. rewrite parse_value_object.
  fold (string_member (str "status") (str "ok") (ch ",")
          (string_member (str "time") now (ch "}") [])).
  rewrite parse_members_next, parse_members_last. reflexivity.
Qed.

(** X2. A GET is answered 200 with a body that parses as
    [{status: "ok", time: t}], [t] being the clock's ISO string, whatever
    the body of the request and whether or not the secret is configured;
    nothing is logged and nothing is called. *)
Theorem get_is_health_check (e : Event) (w : World) :
  httpMethod e = str "GET" ->
  exists b,
    handler e w = (Ok (mk_response 200 (corsHeaders []) (Some b)), [])
    /\ JSON_parse b = Some (JObject [(str "status", JString (str "ok"));
                                     (str "time", JString (now_iso w))]).
Proof.
  intros Hm. unfold handler. rewrite Hm.
  change (jsstring_eqb (str "GET") (str "OPTIONS")) with false.
  change (jsstring_eqb (str "GET") (str "GET")) with true. cbv iota.
  eexists. split; [reflexivity | apply JSON_parse_health].
Qed.

Lemma get_is_health_check_witness :
  exists b,
    handler (mk_event (str "GET") (BodyString (str "ignored"))) (world_of None (answer 200 "{}"))
    = (Ok (mk_response 200 (corsHeaders []) (Some b)), [])
    /\ JSON_parse b = Some (JObject [(str "status", JString (str "ok"));
                                     (str "time", JString (str "2026-01-01T00:00:00.000Z"))]).
Proof.
  apply (get_is_health_check (mk_event (str "GET") (BodyString (str "ignored")))
           (world_of None (answer 200 "{}"))).
  reflexivity.
Defined.

(** ** Methods *)

(** X3. Every method other than OPTIONS, GET and POST, compared letter
    for letter (so [post] in lower case too), is answered 405 with
    [{error: "Method Not Allowed"}], whatever the body and the secret,
    without a log line or a call. *)
Theorem other_methods_are_405 (e : Event) (w : World) :
  httpMethod e <> str "OPTIONS" ->
  httpMethod e <> str "GET" ->
  httpMethod e <> str "POST" ->
  handler e w
  = (Ok (mk_response 405 (corsHeaders []) (Some (error_body (str "Method Not Allowed")))), [])
  /\ JSON_parse (error_body (str "Method Not Allowed"))
     = Some (JObject [(str "error", JString (str "Method Not Allowed"))]).
Proof.
  intros Ho Hg Hp. split; [|apply JSON_parse_error_body].
  apply jsstring_eqb_neq in Ho, Hg, Hp. unfold handler. rewrite Ho, Hg, Hp. reflexivity.
Qed.

Lemma other_methods_are_405_witness :
  handler lowercase_post (sample_world (answer 200 "{}"))
  = (Ok (mk_response 405 (corsHeaders []) (Some (qstr "{'error':'Method Not Allowed'}"))), []).
Proof.
  apply (other_methods_are_405 lowercase_post (sample_world (answer 200 "{}")));
    discriminate.
Defined.

(** X4. Of all responses only the preflight answer lacks a body, and
    only it has status 204: a returned response has no body exactly when
    the method is OPTIONS, and status 204 exactly then. *)
Theorem only_preflight_lacks_body (e : Event) (w : World) (r : HttpResponse) :
  fst (handler e w) = Ok r ->
  (response_body r = None <-> httpMethod e = str "OPTIONS")
  /\ (statusCode r = 204 <-> httpMethod e = str "OPTIONS").
Proof.
  intros H. pose proof (handler_branch e w) as B.
  destruct B as [Hm|Hm|Ho Hg Hp|Hm Hk|Hm Hk Hp|Hm Hk Hp|payload Hm Hk Hp Hn Ha
                 |payload elems mp Hv Hg Hs|payload elems mp sup mt res Hv Hg Hs Hc Hb];
    cbn [fst] in H; try discriminate H.
  1: { injection H as <-. cbn. repeat split; auto. }
  1: { injection H as <-. rewrite Hm. cbn. repeat split; discriminate. }
  1: { injection H as <-. cbn. repeat split; intros F; try discriminate F; contradiction. }
  1-3: injection H as <-; rewrite Hm; cbn; repeat split; discriminate.
  destruct Hv as (Hm & _). rewrite Hm.
  destruct Hb as [err Hu|fr err Hu Hr|fr T Hu Hok Hr|fr t data Hu Hok Hr Hp|fr t Hu Hok Hr Hp];
    cbn [fst] in H; injection H as <-; cbn [response_body statusCode failure_response
                                               upstream_error_response];
    repeat split; try discriminate.
  intros F. unfold ok in Hok. rewrite F in Hok. discriminate Hok.
Qed.

Lemma only_preflight_lacks_body_witness :
  let r := mk_response 204 (corsHeaders []) None in
  fst (handler (mk_event (str "OPTIONS") BodyNull) (world_of None (answer 200 "{}"))) = Ok r
  /\ (response_body r = None <-> str "OPTIONS" = str "OPTIONS").
Proof.
  intros r. split; [reflexivity|].
  apply (only_preflight_lacks_body (mk_event (str "OPTIONS") BodyNull)
           (world_of None (answer 200 "{}")) r).
  reflexivity.
Defined.

(** ** Status codes and error bodies *)

(** X5. The status of a response is 204, 200, 400, 405 or 500, or else
    it is the status of the upstream's answer to the call the handler
    made, and that answer was not a success. *)
Theorem status_codes_produced (e : Event) (w : World) (r : HttpResponse) :
  fst (handler e w) = Ok r ->
  In (statusCode r) [204; 200; 400; 405; 500]
  \/ exists u i answer,
       upstream_call e w u i
       /\ upstream w u i = Resolves answer
       /\ ok answer = false
       /\ statusCode r = status answer.
Proof.
  intros H. unfold upstream_call. pose proof (handler_branch e w) as B.
  destruct B as [Hm|Hm|Ho Hg Hp|Hm Hk|Hm Hk Hp|Hm Hk Hp|payload Hm Hk Hp Hn Ha
                 |payload elems mp Hv Hg Hs|payload elems mp sup mt res Hv Hg Hs Hc Hb];
    cbn [fst] in H; try discriminate H; try (injection H as <-; left; cbn; tauto).
  destruct Hb as [err Hu|fr err Hu Hr|fr T Hu Hok Hr|fr t data Hu Hok Hr Hp|fr t Hu Hok Hr Hp];
    cbn [fst] in H; injection H as <-; try (left; cbn; tauto).
  right. do 3 eexists. split; [right; left; reflexivity|]. repeat split; assumption.
Qed.

Lemma status_codes_produced_witness :
  let w := sample_world (answer 503 "busy") in
  fst (handler sample_post w)
  = Ok (upstream_error_response
          (mk_fetch_response 503 (inl (str "busy")) sample_json_failure) (str "busy"))
  /\ (In 503 [204; 200; 400; 405; 500]
      \/ exists u i answer,
           upstream_call sample_post w u i
           /\ upstream w u i = Resolves answer
           /\ ok answer = false
           /\ 503 = status answer).
Proof.
  intros w.
  assert (H : fst (handler sample_post w)
              = Ok (upstream_error_response
                      (mk_fetch_response 503 (inl (str "busy")) sample_json_failure)
                      (str "busy"))) by (vm_compute; reflexivity).
  split; [exact H|].
  exact (status_codes_produced sample_post w _ H).
Defined.

(** X6. Every response whose status is neither 200 nor 204 carries a
    body that parses as a JSON object with a string under [error]. *)
Theorem error_responses_carry_error_field (e : Event) (w : World) (r : HttpResponse) :
  fst (handler e w) = Ok r ->
  statusCode r <> 200 ->
  statusCode r <> 204 ->
  exists b members msg,
    response_body r = Some b
    /\ JSON_parse b = Some (JObject members)
    /\ obj_get (str "error") members = Some (JString msg).
Proof.
  intros H H200 H204. pose proof (handler_branch e w) as B.
  assert (E : forall msg,
             exists b members m,
               Some (error_body msg) = Some b
               /\ JSON_parse b = Some (JObject members)
               /\ obj_get (str "error") members = Some (JString m)).
  { intros msg. exists (error_body msg), [(str "error", JString msg)], msg.
    split; [reflexivity|]. split; [apply JSON_parse_error_body | reflexivity]. }
  destruct B as [Hm|Hm|Ho Hg Hp|Hm Hk|Hm Hk Hp|Hm Hk Hp|payload Hm Hk Hp Hn Ha
                 |payload elems mp Hv Hg Hs|payload elems mp sup mt res Hv Hg Hs Hc Hb];
    cbn [fst] in H; try discriminate H;
    try (injection H as <-; try (destruct H200; reflexivity);
         try (destruct H204; reflexivity); apply E).
  destruct Hb as [err Hu|fr err Hu Hr|fr T Hu Hok Hr|fr t data Hu Hok Hr Hp|fr t Hu Hok Hr Hp];
    cbn [fst] in H; injection H as <-; try apply E.
  - eexists _, _, _. split; [reflexivity|].
    split; [apply JSON_parse_error_details | reflexivity].
  - destruct H200. reflexivity.
Qed.

Lemma error_responses_carry_error_field_witness :
  exists b members msg,
    response_body missing_contents_response = Some b
    /\ JSON_parse b = Some (JObject members)
    /\ obj_get (str "error") members = Some (JString msg).
Proof.
  apply (error_responses_carry_error_field
           (mk_event (str "POST") (BodyString (qstr "{'foo':1}")))
           (sample_world (answer 200 "{}")) missing_contents_response).
  - vm_compute. reflexivity.
  - discriminate.
  - discriminate.
Defined.

(** ** The outbound call *)

Lemma branch_fetch_count e w res :
  branch e w res -> (length (filter is_fetch (snd res)) <= 1)%nat.
Proof.
  intros B. destruct B; cbn; try lia.
  match goal with H : call_branch _ _ _ _ |- _ => destruct H end; cbn; lia.
Qed.

(** X7. An invocation calls the upstream at most once, and only for a
    POST that passed validation; the call is a POST with the header
    [Content-Type: application/json] and no other. *)
Theorem at_most_one_call (e : Event) (w : World) :
  (fetch_count e w <= 1)%nat
  /\ forall u i,
       upstream_call e w u i ->
       (exists payload elems, valid_post e w payload elems)
       /\ method i = str "POST"
       /\ init_headers i = [(str "Content-Type", str "application/json")].
Proof.
  split; [apply (branch_fetch_count e w), handler_branch|].
  intros u i. unfold upstream_call. pose proof (handler_branch e w) as B.
  destruct B as [Hm|Hm|Ho Hg Hp|Hm Hk|Hm Hk Hp|Hm Hk Hp|payload Hm Hk Hp Hn Ha
                 |payload elems mp Hv Hg Hs|payload elems mp sup mt res Hv Hg Hs Hc Hb];
    cbn [snd]; try (intros []).
  intros Hin. destruct (call_branch_fetch _ _ _ _ _ _ Hb Hin) as [-> ->].
  split; [eauto|]. split; reflexivity.
Qed.

Lemma at_most_one_call_witness :
  let w := sample_world (answer 200 "{}") in
  upstream_call sample_post w sample_url (fetch_init sample_request)
  /\ method (fetch_init sample_request) = str "POST"
  /\ (fetch_count sample_post w <= 1)%nat.
Proof.
  intros w.
  assert (Hu : upstream_call sample_post w sample_url (fetch_init sample_request))
    by (vm_compute; right; left; reflexivity).
  split; [exact Hu|].
  split; [apply (proj2 (at_most_one_call sample_post w) _ _ Hu)
         | apply (proj1 (at_most_one_call sample_post w))].
Defined.

(** X8. The URL of the call is the fixed prefix, the model, the text
    [:generateContent?key=] and the secret, joined without any escaping:
    a non-empty string under [model] goes in as it is, and a [model] that
    is missing or falsy ([null], [false], [0], the empty string) gives
    [gemini-2.5-flash]. *)
Theorem url_of_the_call (e : Event) (w : World) (payload : json) (elems : list json)
    (u : jsstring) (i : RequestInit) (key : jsstring) :
  valid_post e w payload elems ->
  upstream_call e w u i ->
  GEMINI_API_KEY w = Some key ->
  exists model_prop model_text,
    get_prop payload (str "model") = Ok model_prop
    /\ u = str "https://generativelanguage.googleapis.com/v1beta/models/"
           ++ model_text ++ str ":generateContent?key=" ++ key
    /\ (forall s, model_prop = Some (JString s) -> s <> [] -> model_text = s)
    /\ (truthy model_prop = false -> model_text = str "gemini-2.5-flash").
Proof.
  intros Hv Hu Hk.
  destruct (handler_valid_post _ _ _ _ Hv) as (supplied & model_prop & _ & Hm & Hh).
  exists model_prop. unfold upstream_call in Hu. rewrite Hh in Hu.
  destruct (ToString (or_else model_prop default_model)) as [mt|] eqn:Hs; [|destruct Hu].
  apply call_gemini_fetch in Hu as [-> _]. exists mt.
  split; [exact Hm|]. split; [rewrite Hk; reflexivity|]. split.
  - intros s -> Hn. destruct s as [|c s]; [contradiction|].
    cbn in Hs. injection Hs as <-. reflexivity.
  - intros Ht. unfold or_else in Hs. destruct model_prop as [m|].
    + rewrite Ht in Hs. injection Hs as <-. reflexivity.
    + injection Hs as <-. reflexivity.
Qed.

Lemma url_of_the_call_witness :
  let w := sample_world (answer 200 "{}") in
  exists model_prop model_text,
    get_prop (JObject tagged_members) (str "model") = Ok model_prop
    /\ tagged_url = str "https://generativelanguage.googleapis.com/v1beta/models/"
                    ++ model_text ++ str ":generateContent?key=" ++ str "secret"
    /\ (forall s, model_prop = Some (JString s) -> s <> [] -> model_text = s)
    /\ (truthy model_prop = false -> model_text = str "gemini-2.5-flash").
Proof.
  intros w.
  apply (url_of_the_call tagged_post w (JObject tagged_members) []
           tagged_url (fetch_init zero_config_request) (str "secret")).
  - repeat split.
  - vm_compute. right. left. reflexivity.
  - reflexivity.
Defined.

(** ** Invocations that end without a response *)





(** ** Failures after the call *)

(** X10. On a valid POST, an exception raised after [fetch] has resolved
    is answered like a failed call: when the body of the answer cannot be
    read, and when the answer is a success whose body is not JSON (an
    empty body, for one), the response is 500 with that exception's
    message, or the fallback text, under [error]. *)
Theorem failure_after_the_call_is_500
    (e : Event) (w : World) (payload : json) (elems : list json)
    (u : jsstring) (i : RequestInit) (r : FetchResponse) (err : exn) :
  valid_post e w payload elems ->
  upstream_call e w u i ->
  upstream w u i = Resolves r ->
  body_read r = inr err
  \/ (ok r = true /\ err = json_failure r
      /\ exists t, body_read r = inl t /\ JSON_parse t = None) ->
  let msg := message_or err (str "Failed to call Gemini API") in
  fst (handler e w) = Ok (mk_response 500 (corsHeaders []) (Some (error_body msg)))
  /\ JSON_parse (error_body msg) = Some (JObject [(str "error", JString msg)]).
Proof.
  intros Hv Hu Hr Hc msg. split; [|apply JSON_parse_error_body].
  destruct (valid_post_call _ _ _ _ Hv _ _ Hu) as (supplied & _ & -> & ->).
  destruct Hc as [Hb | (Hok & -> & t & Hb & Hp)].
  - rewrite (call_gemini_body_error _ _ _ _ _ Hr Hb). reflexivity.
  - rewrite (call_gemini_ok_not_json _ _ _ _ _ Hr Hok Hb Hp). reflexivity.
Qed.

Lemma failure_after_the_call_is_500_witness :
  let w := sample_world (answer 204 "") in
  fst (handler sample_post w)
  = Ok (mk_response 500 (corsHeaders [])
          (Some (qstr "{'error':'invalid json response body'}"))).
Proof.
  intros w.
  apply (failure_after_the_call_is_500 sample_post w sample_payload sample_contents
           sample_url (fetch_init sample_request)
           (mk_fetch_response 204 (inl []) sample_json_failure) sample_json_failure).
  - repeat split.
  - vm_compute. right. left. reflexivity.
  - reflexivity.
  - right. split; [reflexivity|]. split; [reflexivity|].
    exists []. split; reflexivity.
Defined.

(** ** Logging *)

(** X11. An invocation that calls the upstream logs
    [Calling Gemini API...] before the call and nothing else before it;
    after the call it logs one error when the response is not the 200 of
    a relayed success, and nothing when it is. *)
Theorem log_lines_of_a_call (e : Event) (w : World) (u : jsstring) (i : RequestInit) :
  upstream_call e w u i ->
  exists r tail,
    handler e w = (Ok r, ConsoleLog [LString (str "Calling Gemini API...")]
                         :: FetchCall u i :: tail)
    /\ ((statusCode r = 200 /\ tail = [])
        \/ (statusCode r <> 200 /\ exists args, tail = [ConsoleError args])).
Proof.
  unfold upstream_call. pose proof (handler_branch e w) as B.
  destruct B as [Hm|Hm|Ho Hg Hp|Hm Hk|Hm Hk Hp|Hm Hk Hp|payload Hm Hk Hp Hn Ha
                 |payload elems mp Hv Hg Hs|payload elems mp sup mt res Hv Hg Hs Hc Hb];
    cbn [snd]; try (intros []).
  intros Hin. destruct (call_branch_fetch _ _ _ _ _ _ Hb Hin) as [-> ->].
  destruct Hb as [err Hu|fr err Hu Hr|fr T Hu Hok Hr|fr t data Hu Hok Hr Hp|fr t Hu Hok Hr Hp];
    do 2 eexists; (split; [reflexivity|]);
    try (left; split; reflexivity);
    right; (split; [|eexists; reflexivity]); cbn; try discriminate.
  intros F. unfold ok in Hok. rewrite F in Hok. discriminate Hok.
Qed.

Lemma log_lines_of_a_call_witness :
  let w := sample_world (answer 429 "rate limited") in
  exists r tail,
    handler sample_post w
    = (Ok r, ConsoleLog [LString (str "Calling Gemini API...")]
             :: FetchCall sample_url (fetch_init sample_request) :: tail)
    /\ ((statusCode r = 200 /\ tail = [])
        \/ (statusCode r <> 200 /\ exists args, tail = [ConsoleError args])).
Proof.
  intros w.
  apply (log_lines_of_a_call sample_post w sample_url (fetch_init sample_request)).
  vm_compute. right. left. reflexivity.
Defined.

(** ** The secret *)



(** ** Bodies that fail validation *)

Lemma skip_ws_blank (s : list N) : forallb is_ws s = true -> skip_ws s = [].
Proof.
  induction s as [|c s IH]; [reflexivity|]. cbn [forallb skip_ws].
  intros H. apply andb_true_iff in H as [-> H]. apply IH, H.
Qed.

(** X14. A POST body that is not empty and holds white space only is not
    read as the empty object: it fails to parse and is answered 400 with
    the invalid-JSON error, without a call. *)
Theorem blank_body_is_invalid_json (e : Event) (w : World) (s : jsstring) :
  httpMethod e = str "POST" ->
  key_missing (GEMINI_API_KEY w) = false ->
  body e = BodyString s ->
  s <> [] ->
  forallb is_ws s = true ->
  handler e w
  = (Ok (mk_response 400 (corsHeaders []) (Some (error_body (str "Invalid JSON body")))), []).
Proof.
  intros Hm Hk Hb Hn Hs. rewrite (handler_post _ _ Hm), Hk, Hb.
  destruct s as [|c s]; [contradiction|]. cbn [body_or_empty_object is_nil].
  unfold JSON_parse, parse_fuel. rewrite Nat.add_comm. cbn [Nat.add parse_value].
  rewrite (skip_ws_blank _ Hs). reflexivity.
Qed.

Lemma blank_body_is_invalid_json_witness :
  handler blank_post (sample_world (answer 200 "{}")) = (Ok invalid_json_response, []).
Proof.
  apply (blank_body_is_invalid_json blank_post (sample_world (answer 200 "{}")) (str "  "));
    try reflexivity.
  discriminate.
Defined.

Lemma validation_failure_is_400_witness :
  exists msg,
    handler string_contents_post (sample_world (answer 200 "{}"))
    = (Ok (mk_response 400 (corsHeaders []) (Some (error_body msg))), [])
    /\ JSON_parse (error_body msg) = Some (JObject [(str "error", JString msg)]).
Proof.
  apply (validation_failure_is_400 string_contents_post (sample_world (answer 200 "{}"))).
  - reflexivity.
  - reflexivity.
  - right. exists (JObject [(str "contents", JString (str "hello"))]).
    split; [vm_compute; reflexivity|]. split; [discriminate|].
    intros elems. vm_compute. discriminate.
Defined.
